(** * Gateway: rate limiters and load balancer

    A shallow embedding of the decision core of the gateway:
    - [src/middleware/fixedWindow.ts]   (fixed-window limiter),
    - [src/middleware/slidingWindow.ts] (sliding-window log limiter),
    - [src/middleware/leakyBucket.ts]   (leaky-bucket limiter),
    - [src/middleware/tokenBucket.ts]   (token-bucket limiter),
    - [src/loadbalancer.ts]             (the seven selection strategies).

    Every middleware reads the module-level [clients] map and the clock
    ([Date.now()]); here the map is passed in and returned, and the clock
    reading is an argument.  [next()] and [res.status(c).json({error})]
    are the two possible outcomes of a middleware call.

    Numbers.  JavaScript numbers that only ever hold integers (request
    counts, queue depths, clock readings in milliseconds, connection
    counts, integer weights, running weighted counters, 32-bit hashes) are
    [Z]: double arithmetic is exact on them below 2^53.  The token count
    of the token bucket and the score of weighted least connections are
    fractions, and are binary64 doubles ([PrimFloat.float]) computed with
    the operations the source uses.  The value of [Math.random()] is a
    rational in [0, 1).  [console.log] calls are left out. *)

From Stdlib Require Import ZArith QArith Qround Floats Uint63 Ascii String Lia.
From stdpp Require Import gmap strings pretty list sorting.

Local Open Scope Z_scope.

(** ** JavaScript values used by the sources *)

Module JS.

(** [ToUint32], the effect of [x >>> 0]. *)
Definition to_uint32 (z : Z) : Z := z mod 2 ^ 32.

(** [ToInt32], applied to the operands and result of [^] and
    [Math.imul]. *)
Definition to_int32 (z : Z) : Z :=
  let u := z mod 2 ^ 32 in
  if u <? 2 ^ 31 then u else u - 2 ^ 32.

(** [a ^ b] *)
Definition xor (a b : Z) : Z := to_int32 (Z.lxor (to_int32 a) (to_int32 b)).

(** [Math.imul(a, b)] *)
Definition imul (a b : Z) : Z := to_int32 (to_int32 a * to_int32 b).

(** [s.charCodeAt(i)] for the i-th character [c] of [s]; a character of
    a Rocq string is one code unit in 0..255. *)
Definition charCode (c : Ascii.ascii) : Z := Z.of_N (N_of_ascii c).

(** A string or [undefined] is truthy when it is a non-empty string. *)
Definition truthy (v : option string) : bool :=
  match v with
  | Some s => negb (bool_decide (s = ""%string))
  | None => false
  end.

(** [a || b] on values that are a string or [undefined]. *)
Definition or (a b : option string) : option string :=
  if truthy a then a else b.

(** The double nearest to the integer [z]; exact below 2^53 in absolute
    value, which covers every difference of two [Date.now()] readings
    and every connection count. *)
Definition float_of_Z (z : Z) : float :=
  if z <? 0 then PrimFloat.opp (PrimFloat.of_uint63 (Uint63.of_Z (- z)))
  else PrimFloat.of_uint63 (Uint63.of_Z z).

(** [Math.min(a, b)] on doubles: NaN is contagious and -0 is below +0. *)
Definition Math_min (a b : float) : float :=
  if PrimFloat.is_nan a then a
  else if PrimFloat.is_nan b then b
  else if PrimFloat.ltb a b then a
  else if PrimFloat.ltb b a then b
  else if PrimFloat.get_sign a then a else b.

End JS.

(** ** Requests and responses *)

(** What the middlewares and the balancer read from an Express request:
    [req.header("X-Client-ID")] and [req.ip], each a string or
    [undefined]. *)
Record Request := mkRequest {
  header_X_Client_ID : option string;
  ip : option string
}.

(** Outcome of a middleware call: [next()] was called, or the response
    [res.status(status).json({ error: message })] was sent. *)
Inductive Response :=
| Next
| Json (status : Z) (error : string).

(** [const clientIP = req.header("X-Client-ID") || req.ip;] followed by the
    test [if (!clientIP)]: [None] is the branch where the test succeeds,
    [Some k] carries the key on the other branch. *)
Definition clientKey (req : Request) : option string :=
  let clientIP := JS.or (header_X_Client_ID req) (ip req) in
  if JS.truthy clientIP then clientIP else None.

(** ** src/middleware/fixedWindow.ts *)

Module FixedWindow.

Record ClientRecord := mkRecord { count : Z; windowStart : Z }.

Definition WINDOW_SIZE_IN_MS : Z := 60000.
Definition MAX_REQUESTS_PER_WINDOW : Z := 5.

Definition rateLimiter (clients : gmap string ClientRecord)
    (req : Request) (currentTime : Z)
  : gmap string ClientRecord * Response :=
  match clientKey req with
  | None => (clients, Json 400 "Unable to determine client IP")
  | Some clientIP =>
      match clients !! clientIP with
      | None =>
          (<[clientIP := mkRecord 1 currentTime]> clients, Next)
      | Some record =>
          if WINDOW_SIZE_IN_MS <? currentTime - windowStart record then
            (<[clientIP := mkRecord 1 currentTime]> clients, Next)
          else if count record <? MAX_REQUESTS_PER_WINDOW then
            (<[clientIP := mkRecord (count record + 1) (windowStart record)]>
               clients, Next)
          else (clients, Json 429 "Rate limit exceeded")
      end
  end.

End FixedWindow.

(** ** src/middleware/slidingWindow.ts *)

Module SlidingWindow.

Definition WINDOW_SIZE : Z := 5000.
Definition MAX_REQUESTS : nat := 2.

Definition slidingWindowLogRateLimiter (clients : gmap string (list Z))
    (req : Request) (now : Z) : gmap string (list Z) * Response :=
  match clientKey req with
  | None => (clients, Json 400 "Unable to determine client ID")
  | Some clientIP =>
      let timestamps := default [] (clients !! clientIP) in
      let freshTimestamps :=
        filter (λ ts, now - ts ≤ WINDOW_SIZE) timestamps in
      if (MAX_REQUESTS <=? length freshTimestamps)%nat then
        (clients, Json 429 "Rate limit exceeded")
      else
        (<[clientIP := freshTimestamps ++ [now]]> clients, Next)
  end.

End SlidingWindow.

(** ** src/middleware/leakyBucket.ts *)

Module LeakyBucket.

Record Bucket := mkBucket { queue : Z; lastLeak : Z }.

Definition BUCKET_CAPACITY : Z := 5.
Definition LEAK_RATE : Z := 1.

(** [Math.floor(((now - lastLeak) / 1000) * LEAK_RATE)].  The rate is
    an integer, and the double quotient of an integer below 2^53 by 1000
    never rounds across an integer, so the floor is the floor quotient
    ([Z.div] rounds towards minus infinity, as [Math.floor] does). *)
Definition leakedSince (now lastLeak : Z) : Z :=
  ((now - lastLeak) * LEAK_RATE) / 1000.

Definition leakyBucketRateLimiter (clients : gmap string Bucket)
    (req : Request) (now : Z) : gmap string Bucket * Response :=
  match clientKey req with
  | None => (clients, Json 400 "No client ID")
  | Some clientIP =>
      let bucket := default (mkBucket 0 now) (clients !! clientIP) in
      let leaked := leakedSince now (lastLeak bucket) in
      let queue1 := Z.max 0 (queue bucket - leaked) in
      if queue1 <? BUCKET_CAPACITY then
        (<[clientIP := mkBucket (queue1 + 1) now]> clients, Next)
      else
        (<[clientIP := mkBucket queue1 now]> clients,
         Json 429 "Rate limit exceeded")
  end.

End LeakyBucket.

(** ** src/middleware/tokenBucket.ts *)

Module TokenBucket.

(** [tokens] is a double; [lastRefill] is a [Date.now()] reading. *)
Record Bucket := mkBucket { tokens : float; lastRefill : Z }.

Definition REFILL_RATE : float := 0.5%float.
Definition BUCKET_CAPACITY : float := 5%float.

(** [Math.min(BUCKET_CAPACITY, tokens + elapsedSeconds * REFILL_RATE)]
    with [elapsedSeconds = elapsedMs / 1000]. *)
Definition refillBy (tokens : float) (elapsedMs : Z) : float :=
  let elapsedSeconds := PrimFloat.div (JS.float_of_Z elapsedMs) 1000%float in
  JS.Math_min BUCKET_CAPACITY
    (PrimFloat.add tokens (PrimFloat.mul elapsedSeconds REFILL_RATE)).

(** The refill at clock reading [now], [elapsedMs = now - lastRefill]. *)
Definition refilled (b : Bucket) (now : Z) : float :=
  refillBy (tokens b) (now - lastRefill b).

Definition tokenBucketRateLimiter (clients : gmap string Bucket)
    (req : Request) (now : Z) : gmap string Bucket * Response :=
  match clientKey req with
  | None => (clients, Json 400 "No client ID")
  | Some clientIP =>
      let bucket :=
        default (mkBucket BUCKET_CAPACITY now) (clients !! clientIP) in
      let tokens1 := refilled bucket now in
      if PrimFloat.leb 1%float tokens1 then
        (<[clientIP := mkBucket (PrimFloat.sub tokens1 1%float) now]> clients,
         Next)
      else
        (<[clientIP := mkBucket tokens1 now]> clients,
         Json 429 "Rate limit exceeded")
  end.

End TokenBucket.

(** ** src/loadbalancer.ts *)

Module LoadBalancer.

Inductive Strategy :=
| round_robin
| random
| least_connections
| weighted_round_robin
| weighted_least_connections
| ip_hash
| consistent_hash
| unrecognized. (* any other string reaching the function at run time *)

(** [fnv1aHash]: 32-bit FNV-1a over the code units of [str]. *)
Definition fnv1aHash (str : string) : Z :=
  JS.to_uint32
    (foldl (λ h c, JS.to_uint32 (JS.imul (JS.xor h (JS.charCode c)) 16777619))
           (JS.to_uint32 2166136261)
           (list_ascii_of_string str)).

Record RingEntry := mkEntry { hash : Z; server : string }.

(** The state captured by the closure each strategy returns. *)
Inductive State :=
| StRandom
| StRoundRobin (idx : nat)          (* also the fallback branch *)
| StWeightedRoundRobin (current : list Z)
| StLeastConnections (counts : gmap string Z)
| StWeightedLeastConnections (counts : gmap string Z)
| StIpHash
| StConsistentHash (ring : list RingEntry).

(** A balancer: the [servers] and [ws] constants its closure captures
    (weights are integers, as in the backend pool of the specification)
    and the mutable state of its strategy.  The unused [maxWeight] of the
    weighted round robin is left out. *)
Record LoadBalancer := mkLB {
  servers : list string;
  ws : list Z;
  state : State
}.

(** [weights && weights.length === servers.length ? weights
     : servers.map(() => 1)] *)
Definition weightsOrOnes (servers : list string) (weights : option (list Z))
  : list Z :=
  match weights with
  | Some w =>
      if bool_decide (length w = length servers) then w
      else (λ _, 1) <$> servers
  | None => (λ _, 1) <$> servers
  end.

Definition VNODE : nat := 100.

(** The template literal [`${server}#${v}`]. *)
Definition vnodeKey (server : string) (v : nat) : string :=
  (server ++ "#" ++ pretty v)%string.

(** The two nested [for] loops pushing one entry per virtual node. *)
Definition ringEntries (servers : list string) : list RingEntry :=
  servers ≫= λ server,
    (λ v, mkEntry (fnv1aHash (vnodeKey server v)) server) <$> seq 0 VNODE.

(** [ring.sort((a, b) => a.hash - b.hash)]: [Array.prototype.sort] is
    stable, so the result is the ascending order in which entries of
    equal hash keep their insertion order; insertion from the right
    computes exactly that list. *)
Fixpoint insertByHash (e : RingEntry) (l : list RingEntry) : list RingEntry :=
  match l with
  | [] => [e]
  | x :: l' => if hash e <=? hash x then e :: l else x :: insertByHash e l'
  end.

Definition sortByHash (l : list RingEntry) : list RingEntry :=
  foldr insertByHash [] l.

Definition buildRing (servers : list string) : list RingEntry :=
  sortByHash (ringEntries servers).

Definition createLoadBalancer (strategy : Strategy) (servers : list string)
    (weights : option (list Z)) : option LoadBalancer :=
  if bool_decide (length servers = 0%nat) then None (* throw new Error *)
  else
    let ws := weightsOrOnes servers weights in
    Some (mkLB servers ws
      match strategy with
      | random => StRandom
      | round_robin => StRoundRobin 0
      | weighted_round_robin =>
          StWeightedRoundRobin (replicate (length servers) 0)
      | least_connections =>
          StLeastConnections (foldl (λ counts s, <[s := 0]> counts) ∅ servers)
      | weighted_least_connections =>
          StWeightedLeastConnections
            (foldl (λ counts s, <[s := 0]> counts) ∅ servers)
      | ip_hash => StIpHash
      | consistent_hash => StConsistentHash (buildRing servers)
      | unrecognized => StRoundRobin 0
      end).

(** [req.header("X-Client-ID") || req.ip || ""] *)
Definition hashKey (req : Request) : string :=
  default ""%string
    (JS.or (JS.or (header_X_Client_ID req) (ip req)) (Some ""%string)).

(** Reading a numeric array cell that the loops only visit in range. *)
Definition cell (a : list Z) (i : nat) : Z := default 0 (a !! i).

(** [ws[i] ?? 1] *)
Definition weightAt (ws : list Z) (i : nat) : Z := default 1 (ws !! i).

(** [ws[i] || 1]: zero and [undefined] are falsy. *)
Definition weightOr1 (ws : list Z) (i : nat) : Z :=
  match ws !! i with
  | Some w => if w =? 0 then 1 else w
  | None => 1
  end.

(** The first loop of the weighted round robin:
    [current[i] += ws[i] ?? 1; total += ws[i] ?? 1] for [i < n]. *)
Definition addWeights (n : nat) (ws current : list Z) : list Z * Z :=
  foldl (λ '(current, total) i,
           (<[i := cell current i + weightAt ws i]> current,
            total + weightAt ws i))
        (current, 0) (seq 0 n).

(** The second loop: [if (current[i] > current[best]) best = i] for
    [1 <= i < n], starting from [best = 0]. *)
Definition pickBest (n : nat) (current : list Z) : nat :=
  foldl (λ best i, if cell current best <? cell current i then i else best)
        0%nat (seq 1 (n - 1)).

(** The [for (const s of servers)] scan of least-connections. *)
Definition scanLeast (counts : gmap string Z) (servers : list string)
    (best0 : string) : string * Z :=
  foldl (λ '(best, bestCount) s,
           let c := default 0 (counts !! s) in
           if c <? bestCount then (s, c) else (best, bestCount))
        (best0, default 0 (counts !! best0)) servers.

(** [(counts.get(s) ?? 0) / (ws[i] || 1)], a division of doubles. *)
Definition score (counts : gmap string Z) (ws : list Z) (s : string) (i : nat)
  : float :=
  PrimFloat.div (JS.float_of_Z (default 0 (counts !! s)))
                (JS.float_of_Z (weightOr1 ws i)).

(** The indexed scan of weighted-least-connections, [1 <= i < n]. *)
Definition scanLeastWeighted (counts : gmap string Z) (ws : list Z)
    (servers : list string) (best0 : string) : string * float :=
  foldl (λ '(best, bestScore) '(i, s),
           let sc := score counts ws s i in
           if PrimFloat.ltb sc bestScore then (s, sc) else (best, bestScore))
        (best0, score counts ws best0 0)
        (drop 1 (zip (seq 0 (length servers)) servers)).

(** The [while (lo < hi)] loop of the ring search; [fuel] bounds the
    number of iterations, [None] is fuel exhausted or a read outside the
    ring. *)
Fixpoint bsearch (fuel : nat) (ring : list RingEntry) (h : Z) (lo hi : nat)
  : option nat :=
  if (lo <? hi)%nat then
    match fuel with
    | O => None
    | S fuel' =>
        let mid := ((lo + hi) / 2)%nat in
        e ← ring !! mid;
        if h <=? hash e then bsearch fuel' ring h lo mid
        else bsearch fuel' ring h (mid + 1)%nat hi
    end
  else Some lo.

(** The body of the consistent-hash [pickTarget] after [h] is computed. *)
Definition ringLookup (servers : list string) (ring : list RingEntry) (h : Z)
  : option string :=
  let hi := (length ring - 1)%nat in
  if bool_decide (length ring = 0%nat) then servers !! 0%nat
  else
    first ← ring !! 0%nat;
    last ← ring !! hi;
    if (h <=? hash first) || (hash last <? h) then Some (server first)
    else
      lo ← bsearch (length ring) ring h 0 hi;
      server <$> ring !! lo.

(** [pickTarget(req)].  [rnd] is the value [Math.random()] returns during
    the call (a real in [0, 1), used by the random strategy only).
    [None] is a call that throws or returns [undefined]. *)
Definition pickTarget (lb : LoadBalancer) (req : Request) (rnd : Q)
  : option (string * LoadBalancer) :=
  let servers := servers lb in
  let n := length servers in
  match state lb with
  | StRandom =>
      let i := Qfloor (rnd * inject_Z (Z.of_nat n)) in
      if i <? 0 then None
      else t ← servers !! Z.to_nat i; Some (t, lb)
  | StRoundRobin idx =>
      t ← servers !! (idx mod n)%nat;
      Some (t, mkLB servers (ws lb) (StRoundRobin ((idx + 1) mod n)%nat))
  | StWeightedRoundRobin current =>
      let '(current1, total) := addWeights n (ws lb) current in
      let best := pickBest n current1 in
      let current2 := <[best := cell current1 best - total]> current1 in
      t ← servers !! best;
      Some (t, mkLB servers (ws lb) (StWeightedRoundRobin current2))
  | StLeastConnections counts =>
      best0 ← servers !! 0%nat;
      let '(best, _) := scanLeast counts servers best0 in
      Some (best,
            mkLB servers (ws lb)
              (StLeastConnections
                 (<[best := default 0 (counts !! best) + 1]> counts)))
  | StWeightedLeastConnections counts =>
      best0 ← servers !! 0%nat;
      let '(best, _) := scanLeastWeighted counts (ws lb) servers best0 in
      Some (best,
            mkLB servers (ws lb)
              (StWeightedLeastConnections
                 (<[best := default 0 (counts !! best) + 1]> counts)))
  | StIpHash =>
      let h := fnv1aHash (hashKey req) in
      t ← servers !! Z.to_nat (h mod Z.of_nat n);
      Some (t, lb)
  | StConsistentHash ring =>
      let h := fnv1aHash (hashKey req) in
      t ← ringLookup servers ring h;
      Some (t, lb)
  end.

(** [counts.set(target, Math.max(0, (counts.get(target) ?? 1) - 1))] *)
Definition releaseCount (counts : gmap string Z) (target : string)
  : gmap string Z :=
  <[target := Z.max 0 (default 1 (counts !! target) - 1)]> counts.

(** [release(target)]: empty for every strategy but the two that count
    connections. *)
Definition release (lb : LoadBalancer) (target : string) : LoadBalancer :=
  match state lb with
  | StLeastConnections counts =>
      mkLB (servers lb) (ws lb)
        (StLeastConnections (releaseCount counts target))
  | StWeightedLeastConnections counts =>
      mkLB (servers lb) (ws lb)
        (StWeightedLeastConnections (releaseCount counts target))
  | _ => lb
  end.

End LoadBalancer.

(** ** src/index.ts (the gateway with the load balancer) *)

Module Gateway.

Definition servers : list string :=
  ["http://localhost:3001"; "http://localhost:3002"; "http://localhost:3003"].

Definition strategy : LoadBalancer.Strategy := LoadBalancer.round_robin.

(** The module-level state: the [clients] map of the fixed-window
    middleware and the balancer [lb]. *)
Record State := mkState {
  clients : gmap string FixedWindow.ClientRecord;
  lb : LoadBalancer.LoadBalancer
}.

(** [const lb = createLoadBalancer(strategy, servers)], with the empty
    [clients] map the middleware module starts with. *)
Definition start : option State :=
  lb0 ← LoadBalancer.createLoadBalancer strategy servers None;
  Some (mkState ∅ lb0).

(** What happens to the gateway: a request for [/service1] arrives (with
    the clock reading and the value of [Math.random()] during its
    handling), or a proxied response finishes or fails, which runs
    [lb.release(target)]. *)
Inductive Event :=
| Arrive (req : Request) (now : Z) (rnd : Q)
| Finish (target : string).

(** What the gateway does with an arriving request: the middleware sends
    a response, or the handler hands the request to the proxy with a
    target ([Failed]: [pickTarget] did not return a target). *)
Inductive Outcome :=
| Rejected (status : Z) (error : string)
| Proxied (target : string)
| Failed.

(** [app.use(rateLimiter)] runs first; the route handler of
    [app.all("/service1", ...)] runs only when the middleware calls
    [next()], and picks the target it passes to [proxy.web]. *)
Definition handle (st : State) (ev : Event) : State * option Outcome :=
  match ev with
  | Arrive req now rnd =>
      match FixedWindow.rateLimiter (clients st) req now with
      | (clients1, Next) =>
          match LoadBalancer.pickTarget (lb st) req rnd with
          | Some (target, lb1) => (mkState clients1 lb1, Some (Proxied target))
          | None => (mkState clients1 (lb st), Some Failed)
          end
      | (clients1, Json status error) =>
          (mkState clients1 (lb st), Some (Rejected status error))
      end
  | Finish target =>
      (mkState (clients st) (LoadBalancer.release (lb st) target), None)
  end.

(** The outcomes of the arrivals of a sequence of events, in order. *)
Fixpoint run (st : State) (events : list Event) : list Outcome :=
  match events with
  | [] => []
  | ev :: rest =>
      let '(st1, o) := handle st ev in
      match o with
      | Some out => out :: run st1 rest
      | None => run st1 rest
      end
  end.

(** The targets of the proxied requests among a list of outcomes. *)
Fixpoint proxiedTargets (outs : list Outcome) : list string :=
  match outs with
  | [] => []
  | Proxied target :: rest => target :: proxiedTargets rest
  | _ :: rest => proxiedTargets rest
  end.

End Gateway.

(** ** Driving a middleware or a balancer through a sequence of calls *)

(** [runCalls mw s calls] feeds the calls (request, clock reading) to the
    middleware [mw] in order, threading its [clients] map, and collects the
    outcomes. *)
Fixpoint runCalls {S : Type} (mw : S → Request → Z → S * Response)
    (s : S) (calls : list (Request * Z)) : S * list Response :=
  match calls with
  | [] => (s, [])
  | (req, now) :: rest =>
      let '(s1, r) := mw s req now in
      let '(s2, rs) := runCalls mw s1 rest in
      (s2, r :: rs)
  end.

(** ** Definitions used to state the properties *)

(** The timestamps of a sliding-window log that are not older than
    [now - 5000]. *)
Definition freshAt (now : Z) (log : list Z) : list Z :=
  filter (λ ts, now - 5000 ≤ ts) log.

(** Clock readings each less than 1000 ms after the one before, the first
    less than 1000 ms after [last]. *)
Fixpoint spaced (last : Z) (times : list Z) : Prop :=
  match times with
  | [] => True
  | t :: rest => t - last < 1000 ∧ spaced t rest
  end.

(** The ring lookup as the specification words it: the backend of the
    first ring entry whose hash is at least [h], and the backend of the
    first ring entry when there is no such entry. *)
Definition ringLookupRef (ring : list LoadBalancer.RingEntry) (h : Z)
  : option string :=
  match list_find (λ e, h ≤ LoadBalancer.hash e) ring with
  | Some (_, e) => Some (LoadBalancer.server e)
  | None => LoadBalancer.server <$> head ring
  end.

(** Ascending order of a ring. *)
Definition ascending (ring : list LoadBalancer.RingEntry) : Prop :=
  StronglySorted (λ a b, LoadBalancer.hash a ≤ LoadBalancer.hash b) ring.

(** The backends a balancer selects for a sequence of calls (request and
    the value drawn by [Math.random()]), in order. *)
Fixpoint selections (lb : LoadBalancer.LoadBalancer)
    (calls : list (Request * Q)) : list string :=
  match calls with
  | [] => []
  | (req, rnd) :: rest =>
      match LoadBalancer.pickTarget lb req rnd with
      | Some (t, lb1) => t :: selections lb1 rest
      | None => []
      end
  end.

(** The balancer after a sequence of calls. *)
Definition stateAfter (lb : LoadBalancer.LoadBalancer)
    (calls : list (Request * Q)) : LoadBalancer.LoadBalancer :=
  foldl (λ lb '(req, rnd),
           match LoadBalancer.pickTarget lb req rnd with
           | Some (_, lb1) => lb1
           | None => lb
           end) lb calls.

(** The counters the next weighted-round-robin selection compares: the
    running counters after the weights have been added. *)
Definition selectionCounters (lb : LoadBalancer.LoadBalancer) : list Z :=
  match LoadBalancer.state lb with
  | LoadBalancer.StWeightedRoundRobin current =>
      (LoadBalancer.addWeights (length (LoadBalancer.servers lb))
         (LoadBalancer.ws lb) current).1
  | _ => []
  end.

(** "No two consecutive picks are both backend number [a] when a
    lower-counter alternative exists": whenever two consecutive
    selections both return backend [a], no other backend holds a counter
    below that of [a] when the second selection is made. *)
Definition noRepeatWhileLower (lb0 : LoadBalancer.LoadBalancer) (a : nat)
  : Prop :=
  ∀ calls req1 rnd1 req2 rnd2,
    let lb1 := stateAfter lb0 calls in
    let lb2 := stateAfter lb1 [(req1, rnd1)] in
    fst <$> LoadBalancer.pickTarget lb1 req1 rnd1
      = LoadBalancer.servers lb0 !! a →
    fst <$> LoadBalancer.pickTarget lb2 req2 rnd2
      = LoadBalancer.servers lb0 !! a →
    ¬ ∃ j, (j < length (LoadBalancer.servers lb0))%nat ∧
           LoadBalancer.cell (selectionCounters lb2) j
           < LoadBalancer.cell (selectionCounters lb2) a.

(** The selection order of weights 5, 1, 1 over A, B, C, by position
    modulo 7. *)
Definition wrrPattern (i : nat) : string :=
  match (i mod 7)%nat with
  | 2%nat => "B"
  | 4%nat => "C"
  | _ => "A"
  end.

(** The running counters of that balancer before selection number [i]
    (counting from 0). *)
Definition wrrCurrent (i : nat) : list Z :=
  match (i mod 7)%nat with
  | 0%nat => [0; 0; 0]
  | 1%nat => [-2; 1; 1]
  | 2%nat => [-4; 2; 2]
  | 3%nat => [1; -4; 3]
  | 4%nat => [-1; -3; 4]
  | 5%nat => [4; -2; -2]
  | _ => [2; -1; -1]
  end.

(** The balancer over A, B, C with weights 5, 1, 1 before selection
    number [i]. *)
Definition wrrAt (i : nat) : LoadBalancer.LoadBalancer :=
  LoadBalancer.mkLB ["A"; "B"; "C"]%string [5; 1; 1]
    (LoadBalancer.StWeightedRoundRobin (wrrCurrent i)).

(** Number of occurrences of a backend in a list of selections. *)
Definition occurrences (s : string) (l : list string) : nat :=
  length (filter (λ t, t = s) l).

(** What can happen to a balancer: a selection, with the value
    [Math.random()] returns during it (a real in [0, 1)), or a release. *)
Inductive reachable (lb0 : LoadBalancer.LoadBalancer)
  : LoadBalancer.LoadBalancer → Prop :=
| reach_init : reachable lb0 lb0
| reach_pick lb req rnd t lb1 :
    reachable lb0 lb →
    (0 <= rnd)%Q → (rnd < 1)%Q →
    LoadBalancer.pickTarget lb req rnd = Some (t, lb1) →
    reachable lb0 lb1
| reach_release lb target :
    reachable lb0 lb →
    reachable lb0 (LoadBalancer.release lb target).

(** The connection counters of a balancer (empty for the strategies that
    keep none) and the active-connection count of a backend. *)
Definition countsOf (lb : LoadBalancer.LoadBalancer) : gmap string Z :=
  match LoadBalancer.state lb with
  | LoadBalancer.StLeastConnections counts => counts
  | LoadBalancer.StWeightedLeastConnections counts => counts
  | _ => ∅
  end.

Definition activeCount (lb : LoadBalancer.LoadBalancer) (s : string) : Z :=
  default 0 (countsOf lb !! s).

(** The strategies whose closure holds a [counts] map. *)
Definition tracks (lb : LoadBalancer.LoadBalancer) : Prop :=
  match LoadBalancer.state lb with
  | LoadBalancer.StLeastConnections _
  | LoadBalancer.StWeightedLeastConnections _ => True
  | _ => False
  end.

(** What every state of a balancer built over [servers0] satisfies: the
    backend list is the configured one, and a ring is the one built from
    it. *)
Definition wellFormed (servers0 : list string)
    (lb : LoadBalancer.LoadBalancer) : Prop :=
  LoadBalancer.servers lb = servers0 ∧
  match LoadBalancer.state lb with
  | LoadBalancer.StConsistentHash ring =>
      ring = LoadBalancer.buildRing servers0
  | _ => True
  end.

(** The clock readings of the calls that were admitted, given the clock
    readings of all calls and their outcomes. *)
Fixpoint admittedTimes (times : list Z) (outcomes : list Response) : list Z :=
  match times, outcomes with
  | t :: times1, Next :: outcomes1 => t :: admittedTimes times1 outcomes1
  | _ :: times1, _ :: outcomes1 => admittedTimes times1 outcomes1
  | _, _ => []
  end.

(** The calls of one client at the given clock readings. *)
Definition callsAt (req : Request) (times : list Z) : list (Request * Z) :=
  (λ t, (req, t)) <$> times.

(** Clock readings of successive calls that never go back: each is at
    least the one before, the first at least [last]. *)
Fixpoint nondecreasing (last : Z) (times : list Z) : Prop :=
  match times with
  | [] => True
  | t :: rest => last ≤ t ∧ nondecreasing t rest
  end.

(** The shape shared by the four middlewares: resolve the key, answer 400
    without it, otherwise read the client's entry, decide, and write the
    entry back ([None] for "nothing written"). *)
Definition keyed {V : Type} (missing : string)
    (step : option V → Z → option V * Response)
    (clients : gmap string V) (req : Request) (now : Z)
  : gmap string V * Response :=
  match clientKey req with
  | None => (clients, Json 400 missing)
  | Some k =>
      let '(o, r) := step (clients !! k) now in
      (match o with Some v => <[k := v]> clients | None => clients end, r)
  end.

(** What each middleware does to the entry of the calling client. *)
Definition fixedStep (o : option FixedWindow.ClientRecord) (now : Z)
  : option FixedWindow.ClientRecord * Response :=
  match o with
  | None => (Some (FixedWindow.mkRecord 1 now), Next)
  | Some r =>
      if 60000 <? now - FixedWindow.windowStart r then
        (Some (FixedWindow.mkRecord 1 now), Next)
      else if FixedWindow.count r <? 5 then
        (Some (FixedWindow.mkRecord (FixedWindow.count r + 1)
                 (FixedWindow.windowStart r)), Next)
      else (None, Json 429 "Rate limit exceeded")
  end.

Definition slidingStep (o : option (list Z)) (now : Z)
  : option (list Z) * Response :=
  let fresh := filter (λ ts, now - ts ≤ 5000) (default [] o) in
  if (2 <=? length fresh)%nat then (None, Json 429 "Rate limit exceeded")
  else (Some (fresh ++ [now]), Next).

Definition leakyStep (o : option LeakyBucket.Bucket) (now : Z)
  : option LeakyBucket.Bucket * Response :=
  let b := default (LeakyBucket.mkBucket 0 now) o in
  let q := Z.max 0 (LeakyBucket.queue b
                    - LeakyBucket.leakedSince now (LeakyBucket.lastLeak b)) in
  if q <? 5 then (Some (LeakyBucket.mkBucket (q + 1) now), Next)
  else (Some (LeakyBucket.mkBucket q now), Json 429 "Rate limit exceeded").

Definition tokenStep (o : option TokenBucket.Bucket) (now : Z)
  : option TokenBucket.Bucket * Response :=
  let b := default (TokenBucket.mkBucket 5 now) o in
  let t := TokenBucket.refilled b now in
  if PrimFloat.leb 1 t then
    (Some (TokenBucket.mkBucket (PrimFloat.sub t 1) now), Next)
  else (Some (TokenBucket.mkBucket t now), Json 429 "Rate limit exceeded").

(** No three entries of a list of clock readings, two positions apart,
    lie within 5000 ms: the third of any three successive entries is more
    than 5000 ms after the first. *)
Definition noThreeWithinWindow (l : list Z) : Prop :=
  ∀ i a b, l !! i = Some a → l !! (i + 2)%nat = Some b → 5000 < b - a.

(** Sum of a list of integers. *)
Definition sumZ (l : list Z) : Z := foldr Z.add 0 l.


(** * Properties *)

(** ** Client key *)

Section ClientKey.

Lemma clientKey_header (h : string) (i : option string) :
  h ≠ ""%string → clientKey (mkRequest (Some h) i) = Some h.
Proof.
  intros Hh. unfold clientKey, JS.or, JS.truthy; simpl.
  rewrite bool_decide_eq_false_2 by done. simpl.
  by rewrite bool_decide_eq_false_2.
Qed.

Lemma clientKey_ip (i : string) :
  i ≠ ""%string → clientKey (mkRequest None (Some i)) = Some i.
Proof.
  intros Hi. unfold clientKey, JS.or, JS.truthy; simpl.
  by rewrite bool_decide_eq_false_2.
Qed.

Lemma clientKey_missing : clientKey (mkRequest None None) = None.
Proof. reflexivity. Qed.

End ClientKey.

(** ** Fixed window *)

Section FixedWindowFacts.
Import FixedWindow.

Variable req : Request.
Variable c : string.
Hypothesis Hkey : clientKey req = Some c.

Lemma fixed_new clients now :
  clients !! c = None →
  rateLimiter clients req now = (<[c := mkRecord 1 now]> clients, Next).
Proof using Hkey. intros H. unfold rateLimiter. by rewrite Hkey, H. Qed.

Lemma fixed_expired clients now r :
  clients !! c = Some r →
  60000 < now - windowStart r →
  rateLimiter clients req now = (<[c := mkRecord 1 now]> clients, Next).
Proof using Hkey.
  intros H Ht. unfold rateLimiter, WINDOW_SIZE_IN_MS. rewrite Hkey, H.
  destruct (Z.ltb_spec 60000 (now - windowStart r)); [done | lia].
Qed.

Lemma fixed_room clients now r :
  clients !! c = Some r →
  now - windowStart r ≤ 60000 →
  count r < 5 →
  rateLimiter clients req now
  = (<[c := mkRecord (count r + 1) (windowStart r)]> clients, Next).
Proof using Hkey.
  intros H Ht Hc.
  unfold rateLimiter, WINDOW_SIZE_IN_MS, MAX_REQUESTS_PER_WINDOW.
  rewrite Hkey, H.
  destruct (Z.ltb_spec 60000 (now - windowStart r)); [lia |].
  destruct (Z.ltb_spec (count r) 5); [done | lia].
Qed.

Lemma fixed_full clients now r :
  clients !! c = Some r →
  now - windowStart r ≤ 60000 →
  5 ≤ count r →
  rateLimiter clients req now = (clients, Json 429 "Rate limit exceeded").
Proof using Hkey.
  intros H Ht Hc.
  unfold rateLimiter, WINDOW_SIZE_IN_MS, MAX_REQUESTS_PER_WINDOW.
  rewrite Hkey, H.
  destruct (Z.ltb_spec 60000 (now - windowStart r)); [lia |].
  destruct (Z.ltb_spec (count r) 5); [lia | done].
Qed.

End FixedWindowFacts.

(** C3.  Fixed window, window 60000 ms, at most 5 per window.  For a
    request whose client key is [c]: with no record the limiter stores
    count 1 and the current time and admits; with a record older than the
    window it resets to count 1 and the current time and admits; inside the
    window with count below 5 it increments the count and admits; otherwise
    it answers 429 and leaves the map as it was.  Hence, for a client never
    seen before, five calls inside one window are admitted, the sixth is
    denied with the record still at count 5, and a call later than
    windowStart + 60000 is admitted with the count back at 1. *)
Theorem fixed_window_admit (clients : gmap string FixedWindow.ClientRecord)
    (req : Request) (c : string) :
  clientKey req = Some c →
  (∀ now, clients !! c = None →
     FixedWindow.rateLimiter clients req now
     = (<[c := FixedWindow.mkRecord 1 now]> clients, Next)) ∧
  (∀ now r, clients !! c = Some r → 60000 < now - FixedWindow.windowStart r →
     FixedWindow.rateLimiter clients req now
     = (<[c := FixedWindow.mkRecord 1 now]> clients, Next)) ∧
  (∀ now r, clients !! c = Some r → now - FixedWindow.windowStart r ≤ 60000 →
     FixedWindow.count r < 5 →
     FixedWindow.rateLimiter clients req now
     = (<[c := FixedWindow.mkRecord (FixedWindow.count r + 1)
                                    (FixedWindow.windowStart r)]> clients,
        Next)) ∧
  (∀ now r, clients !! c = Some r → now - FixedWindow.windowStart r ≤ 60000 →
     5 ≤ FixedWindow.count r →
     FixedWindow.rateLimiter clients req now
     = (clients, Json 429 "Rate limit exceeded")) ∧
  (∀ t1 t2 t3 t4 t5 t6 t7,
     clients !! c = None →
     t2 - t1 ≤ 60000 → t3 - t1 ≤ 60000 → t4 - t1 ≤ 60000 →
     t5 - t1 ≤ 60000 → t6 - t1 ≤ 60000 → 60000 < t7 - t1 →
     runCalls FixedWindow.rateLimiter clients
       [(req, t1); (req, t2); (req, t3); (req, t4); (req, t5); (req, t6)]
     = (<[c := FixedWindow.mkRecord 5 t1]> clients,
        [Next; Next; Next; Next; Next; Json 429 "Rate limit exceeded"]) ∧
     runCalls FixedWindow.rateLimiter clients
       [(req, t1); (req, t2); (req, t3); (req, t4); (req, t5); (req, t6);
        (req, t7)]
     = (<[c := FixedWindow.mkRecord 1 t7]> clients,
        [Next; Next; Next; Next; Next; Json 429 "Rate limit exceeded"; Next])).
Proof.
  intros Hkey.
  split; [intros; by apply fixed_new |].
  split; [intros; by eapply fixed_expired |].
  split; [intros; by eapply fixed_room |].
  split; [intros; by eapply fixed_full |].
  intros t1 t2 t3 t4 t5 t6 t7 Hnew H2 H3 H4 H5 H6 H7.
  assert (Hrun : runCalls FixedWindow.rateLimiter clients
       [(req, t1); (req, t2); (req, t3); (req, t4); (req, t5)]
     = (<[c := FixedWindow.mkRecord 5 t1]> clients,
        [Next; Next; Next; Next; Next])).
  { simpl. rewrite (fixed_new req c Hkey) by done.
    do 4 (erewrite (fixed_room req c Hkey);
          [ | apply lookup_insert_eq | simpl; lia | simpl; lia ];
          rewrite insert_insert_eq; simpl).
    done. }
  assert (Hsix : FixedWindow.rateLimiter
                   (<[c := FixedWindow.mkRecord 5 t1]> clients) req t6
                 = (<[c := FixedWindow.mkRecord 5 t1]> clients,
                    Json 429 "Rate limit exceeded")).
  { eapply (fixed_full req c Hkey);
      [apply lookup_insert_eq | simpl; lia | simpl; lia]. }
  assert (Hseven : FixedWindow.rateLimiter
                   (<[c := FixedWindow.mkRecord 5 t1]> clients) req t7
                 = (<[c := FixedWindow.mkRecord 1 t7]> clients, Next)).
  { erewrite (fixed_expired req c Hkey);
      [ | apply lookup_insert_eq | simpl; lia ].
    by rewrite insert_insert_eq. }
  simpl in Hrun |- *.
  destruct (FixedWindow.rateLimiter clients req t1) as [s1 r1].
  destruct (FixedWindow.rateLimiter s1 req t2) as [s2 r2].
  destruct (FixedWindow.rateLimiter s2 req t3) as [s3 r3].
  destruct (FixedWindow.rateLimiter s3 req t4) as [s4 r4].
  destruct (FixedWindow.rateLimiter s4 req t5) as [s5 r5].
  injection Hrun as -> -> -> -> -> ->.
  rewrite Hsix, Hseven. done.
Qed.

Lemma fixed_window_admit_witness :
  runCalls FixedWindow.rateLimiter ∅
    (let r := mkRequest (Some "C"%string) None in
     [(r, 1000); (r, 1010); (r, 2000); (r, 30000); (r, 60999); (r, 61000);
      (r, 61001)])
  = ({["C"%string := FixedWindow.mkRecord 1 61001]},
     [Next; Next; Next; Next; Next; Json 429 "Rate limit exceeded"; Next]).
Proof.
  pose proof (fixed_window_admit ∅ (mkRequest (Some "C"%string) None)
                "C"%string eq_refl) as (_ & _ & _ & _ & H).
  destruct (H 1000 1010 2000 30000 60999 61000 61001) as [_ H7];
    [reflexivity | lia ..|].
  cbv zeta. rewrite H7. by rewrite insert_empty.
Defined.

(** ** Sliding window log *)

Section SlidingWindowFacts.
Import SlidingWindow.

Variable req : Request.
Variable c : string.
Hypothesis Hkey : clientKey req = Some c.

Lemma sliding_filter now log :
  filter (λ ts, now - ts ≤ WINDOW_SIZE) log = freshAt now log.
Proof.
  unfold freshAt, WINDOW_SIZE. apply list_filter_iff. intros ts. lia.
Qed.

Lemma sliding_deny clients now :
  (2 ≤ length (freshAt now (default [] (clients !! c))))%nat →
  slidingWindowLogRateLimiter clients req now
  = (clients, Json 429 "Rate limit exceeded").
Proof using Hkey.
  intros H. unfold slidingWindowLogRateLimiter, MAX_REQUESTS.
  rewrite Hkey. cbv zeta. rewrite sliding_filter.
  destruct (Nat.leb_spec 2 (length (freshAt now (default [] (clients !! c)))));
    [done | lia].
Qed.

Lemma sliding_admit clients now :
  (length (freshAt now (default [] (clients !! c))) < 2)%nat →
  slidingWindowLogRateLimiter clients req now
  = (<[c := freshAt now (default [] (clients !! c)) ++ [now]]> clients, Next).
Proof using Hkey.
  intros H. unfold slidingWindowLogRateLimiter, MAX_REQUESTS.
  rewrite Hkey. cbv zeta. rewrite sliding_filter.
  destruct (Nat.leb_spec 2 (length (freshAt now (default [] (clients !! c)))));
    [lia | done].
Qed.

End SlidingWindowFacts.

(** C5.  Sliding window log, window 5000 ms, at most 2 requests.  For a
    request whose client key is [c] the limiter keeps the stored
    timestamps that are not older than now - 5000; when at least 2 remain
    it answers 429 and the map (so the client's stored log) is unchanged;
    when fewer remain it stores the kept timestamps followed by now and
    admits.  Hence for a client never seen before two calls at t are
    admitted, a third at t + 100 is denied and records nothing, and a call
    at t + 5100 is admitted. *)
Theorem sliding_window_admit (clients : gmap string (list Z))
    (req : Request) (c : string) :
  clientKey req = Some c →
  (∀ now,
     (2 ≤ length (freshAt now (default [] (clients !! c))))%nat →
     SlidingWindow.slidingWindowLogRateLimiter clients req now
     = (clients, Json 429 "Rate limit exceeded")) ∧
  (∀ now,
     (length (freshAt now (default [] (clients !! c))) < 2)%nat →
     SlidingWindow.slidingWindowLogRateLimiter clients req now
     = (<[c := freshAt now (default [] (clients !! c)) ++ [now]]> clients,
        Next)) ∧
  (∀ t,
     clients !! c = None →
     runCalls SlidingWindow.slidingWindowLogRateLimiter clients
       [(req, t); (req, t); (req, t + 100)]
     = (<[c := [t; t]]> clients,
        [Next; Next; Json 429 "Rate limit exceeded"]) ∧
     runCalls SlidingWindow.slidingWindowLogRateLimiter clients
       [(req, t); (req, t); (req, t + 100); (req, t + 5100)]
     = (<[c := [t + 5100]]> clients,
        [Next; Next; Json 429 "Rate limit exceeded"; Next])).
Proof.
  intros Hkey.
  split; [intros; by apply (sliding_deny req c) |].
  split; [intros; by apply (sliding_admit req c) |].
  intros t Hnew.
  assert (H1 : SlidingWindow.slidingWindowLogRateLimiter clients req t
               = (<[c := [t]]> clients, Next)).
  { rewrite (sliding_admit req c Hkey); rewrite Hnew; simpl; [done | lia]. }
  assert (H2 : SlidingWindow.slidingWindowLogRateLimiter
                 (<[c := [t]]> clients) req t
               = (<[c := [t; t]]> clients, Next)).
  { rewrite (sliding_admit req c Hkey); rewrite lookup_insert_eq; simpl;
      unfold freshAt; rewrite filter_cons_True by lia;
      rewrite filter_nil; simpl; [| lia].
    by rewrite insert_insert_eq. }
  assert (Hfresh3 : freshAt (t + 100) [t; t] = [t; t]).
  { unfold freshAt. rewrite !filter_cons_True by lia. by rewrite filter_nil. }
  assert (H3 : SlidingWindow.slidingWindowLogRateLimiter
                 (<[c := [t; t]]> clients) req (t + 100)
               = (<[c := [t; t]]> clients, Json 429 "Rate limit exceeded")).
  { apply (sliding_deny req c Hkey). rewrite lookup_insert_eq; simpl.
    rewrite Hfresh3. simpl. lia. }
  assert (Hfresh4 : freshAt (t + 5100) [t; t] = []).
  { unfold freshAt. rewrite !filter_cons_False by lia. by rewrite filter_nil. }
  assert (H4 : SlidingWindow.slidingWindowLogRateLimiter
                 (<[c := [t; t]]> clients) req (t + 5100)
               = (<[c := [t + 5100]]> clients, Next)).
  { rewrite (sliding_admit req c Hkey); rewrite lookup_insert_eq; simpl;
      rewrite Hfresh4; simpl; [| lia].
    by rewrite insert_insert_eq. }
  simpl. rewrite H1, H2, H3, H4. done.
Qed.

Lemma sliding_window_admit_witness :
  runCalls SlidingWindow.slidingWindowLogRateLimiter ∅
    [(mkRequest (Some "C"%string) None, 0);
     (mkRequest (Some "C"%string) None, 0);
     (mkRequest (Some "C"%string) None, 0 + 100);
     (mkRequest (Some "C"%string) None, 0 + 5100)]
  = ({["C"%string := [0 + 5100]]},
     [Next; Next; Json 429 "Rate limit exceeded"; Next]).
Proof.
  pose proof (sliding_window_admit ∅ (mkRequest (Some "C"%string) None)
                "C"%string eq_refl) as (_ & _ & H).
  destruct (H 0) as [_ H4]; [reflexivity |].
  rewrite H4. by rewrite insert_empty.
Defined.

(** ** Leaky bucket *)

Section LeakyBucketFacts.
Import LeakyBucket.

Variable req : Request.
Variable c : string.
Hypothesis Hkey : clientKey req = Some c.

Lemma leaked_nonpos now last : now - last < 1000 → leakedSince now last ≤ 0.
Proof.
  intros H. unfold leakedSince, LEAK_RATE. rewrite Z.mul_1_r.
  assert ((now - last) / 1000 < 1); [| lia].
  apply Z.div_lt_upper_bound; lia.
Qed.

(** One call on an existing bucket: the stored bucket afterwards. *)
Lemma leaky_step clients now b :
  clients !! c = Some b →
  leakyBucketRateLimiter clients req now
  = let q := Z.max 0 (queue b - leakedSince now (lastLeak b)) in
    if q <? 5 then (<[c := mkBucket (q + 1) now]> clients, Next)
    else (<[c := mkBucket q now]> clients, Json 429 "Rate limit exceeded").
Proof using Hkey.
  intros H. unfold leakyBucketRateLimiter, BUCKET_CAPACITY.
  by rewrite Hkey, H.
Qed.

Lemma leaky_step_spaced clients now b :
  clients !! c = Some b →
  now - lastLeak b < 1000 →
  ∃ b' r,
    leakyBucketRateLimiter clients req now = (<[c := b']> clients, r) ∧
    lastLeak b' = now ∧ queue b ≤ queue b' ∧
    (5 ≤ queue b → r = Json 429 "Rate limit exceeded").
Proof using Hkey.
  intros H Hsp. rewrite (leaky_step _ _ _ H). cbv zeta.
  pose proof (leaked_nonpos _ _ Hsp).
  destruct (Z.ltb_spec (Z.max 0 (queue b - leakedSince now (lastLeak b))) 5).
  - eexists _, _. split; [done |]. simpl. split; [done |]. split; lia.
  - eexists _, _. split; [done |]. simpl. split; [done |]. split; [lia | done].
Qed.

Lemma last_cons_default (t d : Z) rest :
  List.last (t :: rest) d = List.last rest t.
Proof.
  revert t d. induction rest as [| x rest IH]; intros t d; [done |].
  change (List.last (x :: rest) d = List.last (x :: rest) t).
  by rewrite !IH.
Qed.

Lemma leaky_run_spaced times : ∀ clients b,
  clients !! c = Some b →
  spaced (lastLeak b) times →
  ∃ b' rs,
    runCalls leakyBucketRateLimiter clients ((λ t, (req, t)) <$> times)
    = (<[c := b']> clients, rs) ∧
    lastLeak b' = List.last times (lastLeak b) ∧
    queue b ≤ queue b' ∧
    (5 ≤ queue b → Forall (λ r, r = Json 429 "Rate limit exceeded") rs).
Proof using Hkey.
  induction times as [| t rest IH]; intros clients b Hb Hsp.
  - exists b, []. simpl. rewrite insert_id by done.
    split; [done |]. split; [done |]. split; [lia | done].
  - destruct Hsp as [Ht Hrest].
    destruct (leaky_step_spaced clients t b Hb Ht)
      as (b1 & r1 & Hstep & Hlast & Hq & Hdeny).
    destruct (IH (<[c := b1]> clients) b1) as (b2 & rs & Hrun & Hl2 & Hq2 & Hd2).
    { apply lookup_insert_eq. }
    { by rewrite Hlast. }
    exists b2, (r1 :: rs). rewrite fmap_cons. cbn [runCalls].
    rewrite Hstep, Hrun, insert_insert_eq.
    split; [done |]. split.
    { by rewrite Hl2, Hlast, last_cons_default. }
    split; [lia |].
    intros Hfull. constructor; [by apply Hdeny |]. apply Hd2. lia.
Qed.

End LeakyBucketFacts.

(** C9.  Leaky bucket, capacity 5, leak rate 1 per second.  For a request
    whose client key is [c], every call stores lastLeak = now, whatever
    the whole number of requests leaked.  When the calls of a client each
    come less than 1000 ms after the previous one (so that elapsed seconds
    times the rate is below 1), the queue depth never decreases, however
    long the sequence: the bucket after the sequence holds the last clock
    reading and a queue at least as deep as before, and when the queue was
    already at capacity every call of the sequence is answered 429. *)
Theorem leaky_bucket_starves (clients : gmap string LeakyBucket.Bucket)
    (req : Request) (c : string) :
  clientKey req = Some c →
  (∀ now, ∃ b',
     (LeakyBucket.leakyBucketRateLimiter clients req now).1 !! c = Some b' ∧
     LeakyBucket.lastLeak b' = now) ∧
  (∀ b times,
     clients !! c = Some b →
     spaced (LeakyBucket.lastLeak b) times →
     ∃ b' rs,
       runCalls LeakyBucket.leakyBucketRateLimiter clients
         ((λ t, (req, t)) <$> times)
       = (<[c := b']> clients, rs) ∧
       LeakyBucket.lastLeak b' = List.last times (LeakyBucket.lastLeak b) ∧
       LeakyBucket.queue b ≤ LeakyBucket.queue b' ∧
       (5 ≤ LeakyBucket.queue b →
        Forall (λ r, r = Json 429 "Rate limit exceeded") rs)).
Proof.
  intros Hkey. split.
  - intros now. unfold LeakyBucket.leakyBucketRateLimiter. rewrite Hkey.
    cbv zeta. case_match; simpl; rewrite lookup_insert_eq; eauto.
  - intros b times Hb Hsp. by apply leaky_run_spaced.
Qed.

Lemma leaky_bucket_starves_witness :
  ∃ b' rs,
    runCalls LeakyBucket.leakyBucketRateLimiter
      {["C"%string := LeakyBucket.mkBucket 5 0]}
      ((λ t, (mkRequest (Some "C"%string) None, t)) <$> [999; 1998; 2997; 3996])
    = (<["C"%string := b']> {["C"%string := LeakyBucket.mkBucket 5 0]}, rs) ∧
    LeakyBucket.lastLeak b' = 3996 ∧
    5 ≤ LeakyBucket.queue b' ∧
    Forall (λ r, r = Json 429 "Rate limit exceeded") rs.
Proof.
  pose proof (leaky_bucket_starves {["C"%string := LeakyBucket.mkBucket 5 0]}
                (mkRequest (Some "C"%string) None) "C"%string eq_refl)
    as [_ H].
  destruct (H (LeakyBucket.mkBucket 5 0) [999; 1998; 2997; 3996])
    as (b' & rs & Hrun & Hlast & Hq & Hdeny).
  - apply lookup_singleton_eq.
  - simpl. lia.
  - exists b', rs. simpl in Hq. auto using Z.le_refl.
Defined.

(** ** Token bucket *)

Section TokenBucketFacts.
Import TokenBucket.

Variable req : Request.
Variable c : string.
Hypothesis Hkey : clientKey req = Some c.

Lemma token_admit clients now :
  let b := default (mkBucket 5 now) (clients !! c) in
  PrimFloat.leb 1 (refilled b now) = true →
  tokenBucketRateLimiter clients req now
  = (<[c := mkBucket (PrimFloat.sub (refilled b now) 1) now]> clients, Next).
Proof using Hkey.
  intros b H. subst b. unfold tokenBucketRateLimiter. rewrite Hkey.
  cbv zeta. change BUCKET_CAPACITY with 5%float. by rewrite H.
Qed.

Lemma token_deny clients now :
  let b := default (mkBucket 5 now) (clients !! c) in
  PrimFloat.leb 1 (refilled b now) = false →
  tokenBucketRateLimiter clients req now
  = (<[c := mkBucket (refilled b now) now]> clients,
     Json 429 "Rate limit exceeded").
Proof using Hkey.
  intros b H. subst b. unfold tokenBucketRateLimiter. rewrite Hkey.
  cbv zeta. change BUCKET_CAPACITY with 5%float. by rewrite H.
Qed.

(** A call [ms] milliseconds after the last refill of a stored bucket
    holding [tok] tokens, when the refill leaves [tok'] tokens. *)
Lemma token_call_admit clients tok last ms tok' :
  refillBy tok ms = tok' →
  PrimFloat.leb 1 tok' = true →
  tokenBucketRateLimiter (<[c := mkBucket tok last]> clients) req (last + ms)
  = (<[c := mkBucket (PrimFloat.sub tok' 1) (last + ms)]> clients, Next).
Proof using Hkey.
  intros Hr Hle. rewrite token_admit; rewrite lookup_insert_eq; simpl;
    unfold refilled; simpl; replace (last + ms - last) with ms by lia;
    rewrite Hr; [| done].
  by rewrite insert_insert_eq.
Qed.

Lemma token_call_deny clients tok last ms tok' :
  refillBy tok ms = tok' →
  PrimFloat.leb 1 tok' = false →
  tokenBucketRateLimiter (<[c := mkBucket tok last]> clients) req (last + ms)
  = (<[c := mkBucket tok' (last + ms)]> clients,
     Json 429 "Rate limit exceeded").
Proof using Hkey.
  intros Hr Hle. rewrite token_deny; rewrite lookup_insert_eq; simpl;
    unfold refilled; simpl; replace (last + ms - last) with ms by lia;
    rewrite Hr; [| done].
  by rewrite insert_insert_eq.
Qed.

End TokenBucketFacts.

(** C4.  Token bucket, capacity 5, refill 0.5 tokens per second.  For a
    request whose client key is [c], the bucket is the stored one or, on
    first sight, a full one (5 tokens, lastRefill = now); a call computes
    min(5, tokens + ((now - lastRefill) / 1000) * 0.5) in double
    arithmetic and stores lastRefill = now; when that amount is at least 1
    it stores the amount minus 1 and admits, otherwise it stores the amount
    itself and answers 429.  Hence for a client never seen before five
    calls at the same instant are admitted, a sixth is denied, and 2000 ms
    later one call is admitted and the next is denied. *)
Theorem token_bucket_admit (clients : gmap string TokenBucket.Bucket)
    (req : Request) (c : string) :
  clientKey req = Some c →
  (∀ now,
     let b := default (TokenBucket.mkBucket 5 now) (clients !! c) in
     let t :=
       JS.Math_min 5
         (PrimFloat.add (TokenBucket.tokens b)
            (PrimFloat.mul
               (PrimFloat.div
                  (JS.float_of_Z (now - TokenBucket.lastRefill b)) 1000)
               0.5)) in
     (PrimFloat.leb 1 t = true →
      TokenBucket.tokenBucketRateLimiter clients req now
      = (<[c := TokenBucket.mkBucket (PrimFloat.sub t 1) now]> clients, Next)) ∧
     (PrimFloat.leb 1 t = false →
      TokenBucket.tokenBucketRateLimiter clients req now
      = (<[c := TokenBucket.mkBucket t now]> clients,
         Json 429 "Rate limit exceeded"))) ∧
  (∀ t0,
     clients !! c = None →
     runCalls TokenBucket.tokenBucketRateLimiter clients
       [(req, t0); (req, t0); (req, t0); (req, t0); (req, t0); (req, t0)]
     = (<[c := TokenBucket.mkBucket 0 t0]> clients,
        [Next; Next; Next; Next; Next; Json 429 "Rate limit exceeded"]) ∧
     runCalls TokenBucket.tokenBucketRateLimiter clients
       [(req, t0); (req, t0); (req, t0); (req, t0); (req, t0); (req, t0);
        (req, t0 + 2000); (req, t0 + 2000)]
     = (<[c := TokenBucket.mkBucket 0 (t0 + 2000)]> clients,
        [Next; Next; Next; Next; Next; Json 429 "Rate limit exceeded";
         Next; Json 429 "Rate limit exceeded"])).
Proof.
  intros Hkey. split.
  - intros now b t. split; intros H.
    + by apply (token_admit req c Hkey).
    + by apply (token_deny req c Hkey).
  - intros t0 Hnew.
    assert (H1 : TokenBucket.tokenBucketRateLimiter clients req t0
                 = (<[c := TokenBucket.mkBucket 4 t0]> clients, Next)).
    { rewrite (token_admit req c Hkey); rewrite Hnew; simpl;
        unfold TokenBucket.refilled; simpl; rewrite Z.sub_diag; done. }
    assert (Hsame : ∀ tok tok' : float,
               TokenBucket.refillBy tok 0 = tok' →
               PrimFloat.leb 1 tok' = true →
               TokenBucket.tokenBucketRateLimiter
                 (<[c := TokenBucket.mkBucket tok t0]> clients) req t0
               = (<[c := TokenBucket.mkBucket (PrimFloat.sub tok' 1) t0]> clients,
                  Next)).
    { intros tok tok' Hr Hle.
      pose proof (token_call_admit req c Hkey clients tok t0 0 tok' Hr Hle) as H.
      by rewrite Z.add_0_r in H. }
    assert (H6 : TokenBucket.tokenBucketRateLimiter
                   (<[c := TokenBucket.mkBucket 0 t0]> clients) req t0
                 = (<[c := TokenBucket.mkBucket 0 t0]> clients,
                    Json 429 "Rate limit exceeded")).
    { pose proof (token_call_deny req c Hkey clients 0 t0 0 0 eq_refl eq_refl)
        as H.
      by rewrite Z.add_0_r in H. }
    assert (H7 : TokenBucket.tokenBucketRateLimiter
                   (<[c := TokenBucket.mkBucket 0 t0]> clients) req (t0 + 2000)
                 = (<[c := TokenBucket.mkBucket 0 (t0 + 2000)]> clients, Next)).
    { exact (token_call_admit req c Hkey clients 0 t0 2000 1 eq_refl eq_refl). }
    assert (H8 : TokenBucket.tokenBucketRateLimiter
                   (<[c := TokenBucket.mkBucket 0 (t0 + 2000)]> clients) req
                   (t0 + 2000)
                 = (<[c := TokenBucket.mkBucket 0 (t0 + 2000)]> clients,
                    Json 429 "Rate limit exceeded")).
    { pose proof (token_call_deny req c Hkey clients 0 (t0 + 2000) 0 0
                    eq_refl eq_refl) as H.
      by rewrite Z.add_0_r in H. }
    cbn [runCalls]. rewrite H1.
    rewrite (Hsame 4%float 4%float eq_refl eq_refl).
    change (PrimFloat.sub 4 1) with 3%float.
    rewrite (Hsame 3%float 3%float eq_refl eq_refl).
    change (PrimFloat.sub 3 1) with 2%float.
    rewrite (Hsame 2%float 2%float eq_refl eq_refl).
    change (PrimFloat.sub 2 1) with 1%float.
    rewrite (Hsame 1%float 1%float eq_refl eq_refl).
    change (PrimFloat.sub 1 1) with 0%float.
    rewrite H6, H7, H8. done.
Qed.

Lemma token_bucket_admit_witness :
  runCalls TokenBucket.tokenBucketRateLimiter ∅
    [(mkRequest (Some "C"%string) None, 7000);
     (mkRequest (Some "C"%string) None, 7000);
     (mkRequest (Some "C"%string) None, 7000);
     (mkRequest (Some "C"%string) None, 7000);
     (mkRequest (Some "C"%string) None, 7000);
     (mkRequest (Some "C"%string) None, 7000);
     (mkRequest (Some "C"%string) None, 7000 + 2000);
     (mkRequest (Some "C"%string) None, 7000 + 2000)]
  = ({["C"%string := TokenBucket.mkBucket 0 (7000 + 2000)]},
     [Next; Next; Next; Next; Next; Json 429 "Rate limit exceeded";
      Next; Json 429 "Rate limit exceeded"]).
Proof.
  pose proof (token_bucket_admit ∅ (mkRequest (Some "C"%string) None)
                "C"%string eq_refl) as [_ H].
  destruct (H 7000) as [_ H8]; [reflexivity |].
  rewrite H8. by rewrite insert_empty.
Defined.

(** ** Client identity across the four limiters *)

Section Identity.

(** A request without a usable identity is answered 400 by each limiter
    and the map is returned as it was. *)
Lemma fixed_no_key clients req now :
  clientKey req = None →
  FixedWindow.rateLimiter clients req now
  = (clients, Json 400 "Unable to determine client IP").
Proof. intros H. unfold FixedWindow.rateLimiter. by rewrite H. Qed.

Lemma sliding_no_key clients req now :
  clientKey req = None →
  SlidingWindow.slidingWindowLogRateLimiter clients req now
  = (clients, Json 400 "Unable to determine client ID").
Proof.
  intros H. unfold SlidingWindow.slidingWindowLogRateLimiter. by rewrite H.
Qed.

Lemma leaky_no_key clients req now :
  clientKey req = None →
  LeakyBucket.leakyBucketRateLimiter clients req now
  = (clients, Json 400 "No client ID").
Proof. intros H. unfold LeakyBucket.leakyBucketRateLimiter. by rewrite H. Qed.

Lemma token_no_key clients req now :
  clientKey req = None →
  TokenBucket.tokenBucketRateLimiter clients req now
  = (clients, Json 400 "No client ID").
Proof. intros H. unfold TokenBucket.tokenBucketRateLimiter. by rewrite H. Qed.

(** A call only writes the entry of the request's own key. *)
Lemma fixed_frame clients req now k :
  clientKey req ≠ Some k →
  (FixedWindow.rateLimiter clients req now).1 !! k = clients !! k.
Proof.
  intros H. unfold FixedWindow.rateLimiter.
  destruct (clientKey req) as [c|]; [| done].
  assert (c ≠ k) by congruence.
  repeat case_match; simpl; by rewrite ?lookup_insert_ne.
Qed.

Lemma sliding_frame clients req now k :
  clientKey req ≠ Some k →
  (SlidingWindow.slidingWindowLogRateLimiter clients req now).1 !! k
  = clients !! k.
Proof.
  intros H. unfold SlidingWindow.slidingWindowLogRateLimiter.
  destruct (clientKey req) as [c|]; [| done].
  assert (c ≠ k) by congruence.
  cbv zeta. repeat case_match; simpl; by rewrite ?lookup_insert_ne.
Qed.

Lemma leaky_frame clients req now k :
  clientKey req ≠ Some k →
  (LeakyBucket.leakyBucketRateLimiter clients req now).1 !! k = clients !! k.
Proof.
  intros H. unfold LeakyBucket.leakyBucketRateLimiter.
  destruct (clientKey req) as [c|]; [| done].
  assert (c ≠ k) by congruence.
  cbv zeta. repeat case_match; simpl; by rewrite ?lookup_insert_ne.
Qed.

Lemma token_frame clients req now k :
  clientKey req ≠ Some k →
  (TokenBucket.tokenBucketRateLimiter clients req now).1 !! k = clients !! k.
Proof.
  intros H. unfold TokenBucket.tokenBucketRateLimiter.
  destruct (clientKey req) as [c|]; [| done].
  assert (c ≠ k) by congruence.
  cbv zeta. repeat case_match; simpl; by rewrite ?lookup_insert_ne.
Qed.

End Identity.

(** C8.  In each of the four limiters the client key is the value of the
    identity header when that value is a non-empty string, whatever the
    network address is, and the network address otherwise; the key is the
    string as received (the requests with header "A" and with header "a"
    have different keys, and a call for one leaves the entry of the other
    untouched).  A request that yields no key, in particular one with
    neither header nor address, is answered with status 400 and a JSON
    error body by each limiter, and the limiter's map is returned
    unchanged. *)
Theorem limiter_identity (h : string) (i : option string) (a : string) :
  h ≠ ""%string → a ≠ ""%string →
  (* resolution order, no normalisation *)
  clientKey (mkRequest (Some h) i) = Some h ∧
  clientKey (mkRequest None (Some a)) = Some a ∧
  clientKey (mkRequest (Some "A"%string) i)
    ≠ clientKey (mkRequest (Some "a"%string) i) ∧
  (* the header decides, the address is not looked at *)
  (∀ clients now,
     FixedWindow.rateLimiter clients (mkRequest (Some h) i) now
     = FixedWindow.rateLimiter clients (mkRequest (Some h) None) now) ∧
  (∀ clients now,
     SlidingWindow.slidingWindowLogRateLimiter clients (mkRequest (Some h) i) now
     = SlidingWindow.slidingWindowLogRateLimiter clients
         (mkRequest (Some h) None) now) ∧
  (∀ clients now,
     LeakyBucket.leakyBucketRateLimiter clients (mkRequest (Some h) i) now
     = LeakyBucket.leakyBucketRateLimiter clients (mkRequest (Some h) None) now) ∧
  (∀ clients now,
     TokenBucket.tokenBucketRateLimiter clients (mkRequest (Some h) i) now
     = TokenBucket.tokenBucketRateLimiter clients (mkRequest (Some h) None) now) ∧
  (* "A" and "a" are different clients *)
  (∀ clients now,
     (FixedWindow.rateLimiter clients (mkRequest (Some "A"%string) i) now).1
       !! "a"%string = clients !! "a"%string) ∧
  (∀ clients now,
     (SlidingWindow.slidingWindowLogRateLimiter clients
        (mkRequest (Some "A"%string) i) now).1 !! "a"%string
     = clients !! "a"%string) ∧
  (∀ clients now,
     (LeakyBucket.leakyBucketRateLimiter clients
        (mkRequest (Some "A"%string) i) now).1 !! "a"%string
     = clients !! "a"%string) ∧
  (∀ clients now,
     (TokenBucket.tokenBucketRateLimiter clients
        (mkRequest (Some "A"%string) i) now).1 !! "a"%string
     = clients !! "a"%string) ∧
  (* no identity: 400, nothing stored *)
  clientKey (mkRequest None None) = None ∧
  (∀ req clients now,
     clientKey req = None →
     FixedWindow.rateLimiter clients req now
     = (clients, Json 400 "Unable to determine client IP")) ∧
  (∀ req clients now,
     clientKey req = None →
     SlidingWindow.slidingWindowLogRateLimiter clients req now
     = (clients, Json 400 "Unable to determine client ID")) ∧
  (∀ req clients now,
     clientKey req = None →
     LeakyBucket.leakyBucketRateLimiter clients req now
     = (clients, Json 400 "No client ID")) ∧
  (∀ req clients now,
     clientKey req = None →
     TokenBucket.tokenBucketRateLimiter clients req now
     = (clients, Json 400 "No client ID")).
Proof.
  intros Hh Ha.
  assert (Hk : ∀ j, clientKey (mkRequest (Some h) j) = Some h)
    by (intros; by apply clientKey_header).
  assert (HA : ∀ j, clientKey (mkRequest (Some "A"%string) j) = Some "A"%string)
    by (intros; by apply clientKey_header).
  assert (Hne : ∀ j, clientKey (mkRequest (Some "A"%string) j) ≠ Some "a"%string)
    by (intros j; by rewrite HA).
  split; [apply Hk |].
  split; [by apply clientKey_ip |].
  split; [rewrite HA, clientKey_header; done |].
  split.
  { intros. unfold FixedWindow.rateLimiter. by rewrite !Hk. }
  split.
  { intros. unfold SlidingWindow.slidingWindowLogRateLimiter. by rewrite !Hk. }
  split.
  { intros. unfold LeakyBucket.leakyBucketRateLimiter. by rewrite !Hk. }
  split.
  { intros. unfold TokenBucket.tokenBucketRateLimiter. by rewrite !Hk. }
  split; [intros; by apply fixed_frame |].
  split; [intros; by apply sliding_frame |].
  split; [intros; by apply leaky_frame |].
  split; [intros; by apply token_frame |].
  split; [apply clientKey_missing |].
  split; [intros; by apply fixed_no_key |].
  split; [intros; by apply sliding_no_key |].
  split; [intros; by apply leaky_no_key |].
  intros; by apply token_no_key.
Qed.

Lemma limiter_identity_witness :
  clientKey (mkRequest (Some "karim"%string) (Some "10.0.0.7"%string))
  = Some "karim"%string ∧
  clientKey (mkRequest None (Some "10.0.0.7"%string)) = Some "10.0.0.7"%string ∧
  FixedWindow.rateLimiter ∅ (mkRequest None None) 0
  = (∅, Json 400 "Unable to determine client IP").
Proof.
  pose proof (limiter_identity "karim"%string (Some "10.0.0.7"%string)
                "10.0.0.7"%string) as H.
  destruct H as (H1 & H2 & _ & _ & _ & _ & _ & _ & _ & _ & _ & H12 & H13 & _);
    [done | done |].
  split; [exact H1 |]. split; [exact H2 |].
  apply H13. exact H12.
Defined.

(** ** The hash ring *)

Section Ring.
Import LoadBalancer.

Lemma insertByHash_perm e l : insertByHash e l ≡ₚ e :: l.
Proof.
  induction l as [| x l IH]; simpl; [done |].
  case_match; [done |]. rewrite IH. apply perm_swap.
Qed.

Lemma sortByHash_perm l : sortByHash l ≡ₚ l.
Proof.
  induction l as [| x l IH]; simpl; [done |].
  rewrite insertByHash_perm. by rewrite IH.
Qed.

Lemma insertByHash_ascending e l :
  ascending l → ascending (insertByHash e l).
Proof.
  unfold ascending. induction l as [| x l IH]; simpl; intros Hl.
  - repeat constructor.
  - apply StronglySorted_cons in Hl as [Hx Hl].
    destruct (Z.leb_spec (hash e) (hash x)) as [Hle | Hgt].
    + apply StronglySorted_cons. split.
      * constructor; [done |].
        eapply Forall_impl; [exact Hx |]. simpl. intros; lia.
      * by apply StronglySorted_cons.
    + apply StronglySorted_cons. split; [| by apply IH].
      rewrite insertByHash_perm. constructor; [lia | done].
Qed.

Lemma sortByHash_ascending l : ascending (sortByHash l).
Proof.
  induction l as [| x l IH]; simpl.
  - constructor.
  - by apply insertByHash_ascending.
Qed.

Lemma ascending_lookup ring i j a b :
  ascending ring → (i ≤ j)%nat →
  ring !! i = Some a → ring !! j = Some b → hash a ≤ hash b.
Proof.
  unfold ascending. intros Hs. revert i j.
  induction Hs as [| x l Hs IH Hx]; intros i j Hij Hi Hj; [done |].
  destruct i as [| i], j as [| j]; simpl in *; simplify_eq; try lia.
  - eapply (Forall_lookup_1 _ _ _ _ Hx Hj).
  - eapply (IH i j); [lia | done..].
Qed.

Lemma ringEntries_length servers :
  length (ringEntries servers) = (length servers * 100)%nat.
Proof.
  unfold ringEntries. induction servers as [| s l IH]; [done |].
  rewrite bind_cons, length_app, length_fmap, length_seq, IH.
  unfold VNODE. simpl. lia.
Qed.

Lemma ringEntries_server servers e :
  e ∈ ringEntries servers → server e ∈ servers.
Proof.
  unfold ringEntries. intros (s & He & Hs)%list_elem_of_bind.
  apply list_elem_of_fmap in He as (v & -> & _). done.
Qed.

Lemma ringEntries_elem_of servers e :
  e ∈ ringEntries servers ↔
  ∃ s v, s ∈ servers ∧ (v < 100)%nat ∧
         e = mkEntry (fnv1aHash (s ++ "#" ++ pretty v)) s.
Proof.
  unfold ringEntries. rewrite list_elem_of_bind. split.
  - intros (s & He & Hs). apply list_elem_of_fmap in He as (v & -> & Hv).
    apply elem_of_seq in Hv. exists s, v. unfold VNODE in Hv.
    split; [done |]. split; [lia | done].
  - intros (s & v & Hs & Hv & ->). exists s. split; [| done].
    apply list_elem_of_fmap. exists v. split; [done |].
    apply elem_of_seq. unfold VNODE. lia.
Qed.

Lemma fnv1aHash_range str : 0 ≤ fnv1aHash str < 2 ^ 32.
Proof. unfold fnv1aHash, JS.to_uint32. apply Z.mod_pos_bound. lia. Qed.

Lemma buildRing_length servers :
  length (buildRing servers) = (length servers * 100)%nat.
Proof.
  unfold buildRing. by rewrite sortByHash_perm, ringEntries_length.
Qed.

Lemma buildRing_server servers e :
  e ∈ buildRing servers → server e ∈ servers.
Proof.
  unfold buildRing. rewrite sortByHash_perm. apply ringEntries_server.
Qed.

(** The loop: with every entry before [lo] below [h], the entry at [hi]
    at least [h], and enough fuel, the search stops at the first index
    whose hash is at least [h]. *)
Lemma bsearch_first ring h : ascending ring →
  ∀ fuel lo hi e,
    (lo ≤ hi)%nat → (hi - lo < fuel)%nat →
    ring !! hi = Some e → h ≤ hash e →
    (∀ j y, (j < lo)%nat → ring !! j = Some y → hash y < h) →
    ∃ k x, bsearch fuel ring h lo hi = Some k ∧ ring !! k = Some x ∧
           h ≤ hash x ∧
           (∀ j y, (j < k)%nat → ring !! j = Some y → hash y < h).
Proof.
  intros Hasc. induction fuel as [| fuel IH]; intros lo hi e Hle Hfuel Hhi He Hlo;
    [lia |].
  cbn [bsearch]. destruct (Nat.ltb_spec lo hi) as [Hlt | Hge].
  - assert (Hmid : (lo ≤ (lo + hi) / 2 < hi)%nat).
    { split.
      - apply Nat.div_le_lower_bound; lia.
      - apply Nat.Div0.div_lt_upper_bound; lia. }
    destruct (lookup_lt_is_Some_2 ring ((lo + hi) / 2)) as [m Hm].
    { apply lookup_lt_Some in Hhi. lia. }
    rewrite Hm. simpl.
    destruct (Z.leb_spec h (hash m)) as [Hhm | Hhm].
    + apply (IH lo ((lo + hi) / 2)%nat m); [lia | lia | done | done | done].
    + apply (IH ((lo + hi) / 2 + 1)%nat hi e); [lia | lia | done | done |].
      intros j y Hj Hy.
      pose proof (ascending_lookup ring j ((lo + hi) / 2) y m Hasc) as Hjm.
      specialize (Hjm ltac:(lia) Hy Hm). lia.
  - assert (lo = hi) as -> by lia. exists hi, e. done.
Qed.

Lemma ringLookupRef_first ring h k x :
  ring !! k = Some x → h ≤ hash x →
  (∀ j y, (j < k)%nat → ring !! j = Some y → hash y < h) →
  ringLookupRef ring h = Some (server x).
Proof.
  intros Hk Hx Hbefore. unfold ringLookupRef.
  rewrite (proj2 (list_find_Some (λ e, h ≤ hash e) ring k x)); [done |].
  split; [done |]. split; [done |].
  intros j y Hy Hj. specialize (Hbefore j y Hj Hy). lia.
Qed.

Lemma ringLookupRef_wrap ring h lst :
  ascending ring → ring !! (length ring - 1)%nat = Some lst → hash lst < h →
  ringLookupRef ring h = server <$> head ring.
Proof.
  intros Hasc Hlast Hlt. unfold ringLookupRef.
  rewrite (proj2 (list_find_None (λ e, h ≤ hash e) ring)); [done |].
  apply Forall_forall. intros y Hy.
  apply list_elem_of_lookup in Hy as [j Hj].
  assert (hash y ≤ hash lst); [| lia].
  apply (ascending_lookup ring j (length ring - 1) y lst); [done | | done..].
  apply lookup_lt_Some in Hj. lia.
Qed.

Lemma ringLookup_early servers ring h first lst :
  ring !! 0%nat = Some first → ring !! (length ring - 1)%nat = Some lst →
  h ≤ hash first ∨ hash lst < h →
  ringLookup servers ring h = Some (server first).
Proof.
  intros H0 Hl Hh. unfold ringLookup.
  rewrite bool_decide_eq_false_2
    by (apply lookup_lt_Some in H0; lia).
  rewrite H0, Hl. simpl.
  destruct (Z.leb_spec h (hash first)); [done |].
  destruct (Z.ltb_spec (hash lst) h); [done | lia].
Qed.

(** The search of the implementation and the reference lookup agree on
    every ascending non-empty ring, for every [h]. *)
Lemma ringLookup_ref servers ring h :
  ascending ring → (0 < length ring)%nat →
  ∃ e, e ∈ ring ∧ ringLookupRef ring h = Some (server e) ∧
       ringLookup servers ring h = Some (server e).
Proof.
  intros Hasc Hlen.
  destruct (lookup_lt_is_Some_2 ring 0 Hlen) as [first H0].
  destruct (lookup_lt_is_Some_2 ring (length ring - 1)) as [lst Hl]; [lia |].
  destruct (Z.leb_spec h (hash first)) as [Hf | Hf].
  { exists first. split; [by eapply list_elem_of_lookup_2 |].
    split; [| by eapply ringLookup_early; eauto].
    apply (ringLookupRef_first ring h 0 first); [done | done |].
    intros; lia. }
  destruct (Z.ltb_spec (hash lst) h) as [Hw | Hw].
  { exists first. split; [by eapply list_elem_of_lookup_2 |].
    split; [| by eapply ringLookup_early; eauto].
    rewrite (ringLookupRef_wrap ring h lst) by done.
    by rewrite head_lookup, H0. }
  destruct (bsearch_first ring h Hasc (length ring) 0 (length ring - 1) lst)
    as (k & x & Hb & Hk & Hx & Hbefore); [lia | lia | done | done | |].
  { intros; lia. }
  exists x. split; [by eapply list_elem_of_lookup_2 |].
  split; [by eapply ringLookupRef_first |].
  unfold ringLookup. rewrite bool_decide_eq_false_2 by lia.
  rewrite H0, Hl. simpl.
  destruct (Z.leb_spec h (hash first)); [lia |].
  destruct (Z.ltb_spec (hash lst) h); [lia |]. simpl.
  rewrite Hb. simpl. by rewrite Hk.
Qed.

Lemma create_nonempty strategy servers weights lb :
  createLoadBalancer strategy servers weights = Some lb →
  (0 < length servers)%nat ∧ LoadBalancer.servers lb = servers.
Proof.
  unfold createLoadBalancer. case_bool_decide; [done |].
  intros [= <-]. simpl. split; [lia | done].
Qed.

Lemma consistent_hash_select_core servers weights lb :
  createLoadBalancer consistent_hash servers weights = Some lb →
  ∀ req rnd, ∃ e,
    e ∈ buildRing servers ∧
    ringLookupRef (buildRing servers) (fnv1aHash (hashKey req))
    = Some (server e) ∧
    pickTarget lb req rnd = Some (server e, lb).
Proof.
  intros Hcreate req rnd.
  destruct (create_nonempty _ _ _ _ Hcreate) as [Hn Hservers].
  assert (Hstate : state lb = StConsistentHash (buildRing servers)).
  { revert Hcreate. unfold createLoadBalancer.
    case_bool_decide; [done |]. by intros [= <-]. }
  destruct (ringLookup_ref servers (buildRing servers)
              (fnv1aHash (hashKey req)) (sortByHash_ascending _))
    as (e & He & Hr & Hi); [rewrite buildRing_length; lia |].
  exists e. split; [done |]. split; [done |].
  unfold pickTarget. rewrite Hstate, Hservers. cbv zeta. by rewrite Hi.
Qed.

End Ring.

(** C1.  Consistent hash.  The ring of a balancer built over [servers]
    holds servers.length x 100 virtual nodes, one per pair of a backend
    and a number below 100, hashed with the 32-bit FNV-1a of the name
    backend#number, in ascending order of hash.  For every hash value the
    search of the implementation (the two early returns and the binary
    search) returns what the reference lookup returns: the backend of the
    first entry whose hash is at least the key's hash, and the backend of
    the first ring entry when the key's hash is at most the smallest ring
    hash or above the largest.  Select hashes the client key and returns
    that backend, for every request. *)
Theorem consistent_hash_select (servers : list string)
    (weights : option (list Z)) (lb : LoadBalancer.LoadBalancer) :
  LoadBalancer.createLoadBalancer LoadBalancer.consistent_hash servers weights
  = Some lb →
  let ring := LoadBalancer.buildRing servers in
  LoadBalancer.state lb = LoadBalancer.StConsistentHash ring ∧
  length ring = (length servers * 100)%nat ∧
  ring ≡ₚ LoadBalancer.ringEntries servers ∧
  (∀ e, e ∈ ring ↔
        ∃ s v, s ∈ servers ∧ (v < 100)%nat ∧
               e = LoadBalancer.mkEntry
                     (LoadBalancer.fnv1aHash (s ++ "#" ++ pretty v)) s) ∧
  (∀ e, e ∈ ring → 0 ≤ LoadBalancer.hash e < 2 ^ 32) ∧
  ascending ring ∧
  (∀ h, LoadBalancer.ringLookup servers ring h = ringLookupRef ring h) ∧
  (∀ h first lst,
     ring !! 0%nat = Some first → ring !! (length ring - 1)%nat = Some lst →
     h ≤ LoadBalancer.hash first ∨ LoadBalancer.hash lst < h →
     LoadBalancer.ringLookup servers ring h
     = Some (LoadBalancer.server first)) ∧
  (∀ req rnd, ∃ e,
     e ∈ ring ∧
     ringLookupRef ring (LoadBalancer.fnv1aHash (LoadBalancer.hashKey req))
     = Some (LoadBalancer.server e) ∧
     LoadBalancer.pickTarget lb req rnd = Some (LoadBalancer.server e, lb)).
Proof.
  intros Hcreate ring.
  destruct (create_nonempty _ _ _ _ Hcreate) as [Hn Hservers].
  assert (Hstate : LoadBalancer.state lb = LoadBalancer.StConsistentHash ring).
  { revert Hcreate. unfold LoadBalancer.createLoadBalancer.
    case_bool_decide; [done |]. by intros [= <-]. }
  assert (Hlen : length ring = (length servers * 100)%nat)
    by apply buildRing_length.
  assert (Hasc : ascending ring) by apply sortByHash_ascending.
  assert (Hmem : ∀ e, e ∈ ring ↔
            ∃ s v, s ∈ servers ∧ (v < 100)%nat ∧
                   e = LoadBalancer.mkEntry
                         (LoadBalancer.fnv1aHash (s ++ "#" ++ pretty v)) s).
  { intros e. unfold ring, LoadBalancer.buildRing.
    rewrite sortByHash_perm. apply ringEntries_elem_of. }
  split; [done |]. split; [done |].
  split; [apply sortByHash_perm |]. split; [done |].
  split.
  { intros e (s & v & _ & _ & ->)%Hmem. apply fnv1aHash_range. }
  split; [done |].
  split.
  { intros h. destruct (ringLookup_ref servers ring h Hasc) as (e & _ & Hr & Hi);
      [lia |]. by rewrite Hi, Hr. }
  split.
  { intros h first lst. apply ringLookup_early. }
  intros req rnd. by apply (consistent_hash_select_core servers weights).
Qed.

Lemma consistent_hash_select_witness :
  LoadBalancer.ringLookup ["http://localhost:3001"%string]
    (LoadBalancer.buildRing ["http://localhost:3001"%string]) 2166136261
  = ringLookupRef (LoadBalancer.buildRing ["http://localhost:3001"%string])
      2166136261.
Proof.
  destruct (consistent_hash_select ["http://localhost:3001"%string] None
              (LoadBalancer.mkLB ["http://localhost:3001"%string] [1]
                 (LoadBalancer.StConsistentHash
                    (LoadBalancer.buildRing ["http://localhost:3001"%string])))
              eq_refl)
    as (_ & _ & _ & _ & _ & _ & H & _).
  apply H.
Defined.

(** ** Weighted round robin *)

Section WeightedRoundRobin.
Import LoadBalancer.

Lemma wrr_create :
  createLoadBalancer weighted_round_robin ["A"; "B"; "C"]%string
    (Some [5; 1; 1]) = Some (wrrAt 0).
Proof. reflexivity. Qed.

Lemma mod7_cases (i : nat) :
  ∃ r, (i mod 7 = r)%nat ∧ (S i mod 7 = S r mod 7)%nat ∧
       r ∈ [0; 1; 2; 3; 4; 5; 6]%nat.
Proof.
  exists (i mod 7)%nat. split; [done |]. split.
  - replace (S i) with (i + 1)%nat by lia.
    replace (S (i mod 7)) with (i mod 7 + 1)%nat by lia.
    by rewrite Nat.Div0.add_mod_idemp_l.
  - pose proof (Nat.mod_upper_bound i 7 ltac:(lia)) as Hlt.
    destruct (i mod 7)%nat as [|[|[|[|[|[|[|]]]]]]];
      [set_solver .. | lia].
Qed.

(** One selection: the backend of the pattern, and the counters move
    one position along their cycle of length 7. *)
Lemma wrr_step i req rnd :
  pickTarget (wrrAt i) req rnd = Some (wrrPattern i, wrrAt (S i)).
Proof.
  destruct (mod7_cases i) as (r & Hr & HS & Hin).
  unfold wrrAt, wrrPattern, wrrCurrent. rewrite HS, Hr.
  repeat (apply elem_of_cons in Hin as [-> | Hin]; [reflexivity |]).
  by apply elem_of_nil in Hin.
Qed.

Lemma wrr_selections calls : ∀ i,
  selections (wrrAt i) calls = wrrPattern <$> seq i (length calls).
Proof.
  induction calls as [| [req rnd] calls IH]; intros i; [done |].
  cbn [selections length seq fmap list_fmap].
  by rewrite wrr_step, IH.
Qed.

Lemma wrr_window k :
  let w := wrrPattern <$> seq k 7 in
  occurrences "A" w = 5%nat ∧ occurrences "B" w = 1%nat ∧
  occurrences "C" w = 1%nat.
Proof.
  cbn [seq fmap list_fmap]. unfold wrrPattern.
  assert (Hshift : ∀ j, (j < 7)%nat →
            (Nat.iter j S k mod 7 = (k mod 7 + j) mod 7)%nat).
  { intros j _. replace (Nat.iter j S k) with (k + j)%nat.
    - by rewrite Nat.Div0.add_mod_idemp_l.
    - induction j as [| j IHj]; simpl; lia. }
  pose proof (Hshift 1%nat ltac:(lia)) as H1.
  pose proof (Hshift 2%nat ltac:(lia)) as H2.
  pose proof (Hshift 3%nat ltac:(lia)) as H3.
  pose proof (Hshift 4%nat ltac:(lia)) as H4.
  pose proof (Hshift 5%nat ltac:(lia)) as H5.
  pose proof (Hshift 6%nat ltac:(lia)) as H6.
  simpl Nat.iter in *. rewrite H1, H2, H3, H4, H5, H6.
  pose proof (Nat.mod_upper_bound k 7 ltac:(lia)) as Hlt.
  destruct (k mod 7)%nat as [|[|[|[|[|[|[|]]]]]]]; [by vm_compute .. | lia].
Qed.

(** The second loop returns the first index holding the maximum. *)
Lemma pickBest_max current : ∀ n,
  let best := pickBest n current in
  (best < Nat.max n 1)%nat ∧
  ∀ i, (i < n)%nat →
    cell current i ≤ cell current best ∧
    ((i < best)%nat → cell current i < cell current best).
Proof.
  unfold pickBest.
  assert (Hgen : ∀ m,
    let best := foldl (λ best i,
                  if cell current best <? cell current i then i else best)
                  0%nat (seq 1 m) in
    (best < S m)%nat ∧
    ∀ i, (i < S m)%nat →
      cell current i ≤ cell current best ∧
      ((i < best)%nat → cell current i < cell current best)).
  { induction m as [| m IH]; cbv zeta.
    - simpl. split; [lia |]. intros i Hi. assert (i = 0%nat) as -> by lia.
      split; lia.
    - rewrite seq_S, foldl_snoc. cbv zeta in IH. simpl (1 + m)%nat.
      destruct IH as [Hb IH].
      set (best := foldl _ _ _) in *.
      destruct (Z.ltb_spec (cell current best) (cell current (S m))).
      + split; [lia |]. intros i Hi.
        destruct (decide (i = S m)) as [-> | Hne]; [lia |].
        destruct (IH i ltac:(lia)). lia.
      + split; [lia |]. intros i Hi.
        destruct (decide (i = S m)) as [-> | Hne]; [lia |].
        destruct (IH i ltac:(lia)). split; [lia | done]. }
  intros n. destruct n as [| n]; cbv zeta.
  - simpl. split; [lia |]. intros; lia.
  - replace (S n - 1)%nat with n by lia.
    destruct (Hgen n) as [Hb H]. split; [lia | done].
Qed.

End WeightedRoundRobin.

(** C2 (as amended).  Weighted round robin with weights 5, 1, 1 over A, B,
    C.  The balancer starts with all counters 0.  A selection adds each
    weight to its counter, returns the first backend holding the maximum
    of the counters so obtained, and subtracts 7 (the sum of the weights)
    from that backend's counter.  From the fresh balancer the selections
    follow the repeating order A, A, B, A, C, A, A, whatever the requests
    are; so in every window of 7 consecutive selections A is chosen 5
    times and B and C once each. *)
Theorem wrr_5_1_1 :
  LoadBalancer.createLoadBalancer LoadBalancer.weighted_round_robin
    ["A"; "B"; "C"]%string (Some [5; 1; 1]) = Some (wrrAt 0) ∧
  LoadBalancer.state (wrrAt 0)
  = LoadBalancer.StWeightedRoundRobin [0; 0; 0] ∧
  (∀ a b c req rnd,
     let added := [a + 5; b + 1; c + 1] in
     ∃ best t,
       ["A"; "B"; "C"]%string !! best = Some t ∧
       (∀ i, (i < 3)%nat →
          LoadBalancer.cell added i ≤ LoadBalancer.cell added best ∧
          ((i < best)%nat →
           LoadBalancer.cell added i < LoadBalancer.cell added best)) ∧
       LoadBalancer.pickTarget
         (LoadBalancer.mkLB ["A"; "B"; "C"]%string [5; 1; 1]
            (LoadBalancer.StWeightedRoundRobin [a; b; c])) req rnd
       = Some (t,
               LoadBalancer.mkLB ["A"; "B"; "C"]%string [5; 1; 1]
                 (LoadBalancer.StWeightedRoundRobin
                    (<[best := LoadBalancer.cell added best - 7]> added)))) ∧
  (∀ calls,
     selections (wrrAt 0) calls = wrrPattern <$> seq 0 (length calls)) ∧
  (∀ calls k,
     length calls = (k + 7)%nat →
     let w := drop k (selections (wrrAt 0) calls) in
     length w = 7%nat ∧
     occurrences "A" w = 5%nat ∧ occurrences "B" w = 1%nat ∧
     occurrences "C" w = 1%nat).
Proof.
  split; [apply wrr_create |]. split; [reflexivity |].
  split.
  { intros a b c req rnd added.
    pose proof (pickBest_max added 3) as [Hlt Hmax]. cbv zeta in Hlt, Hmax.
    destruct (lookup_lt_is_Some_2 ["A"; "B"; "C"]%string
                (LoadBalancer.pickBest 3 added)) as [t Ht]; [simpl; lia |].
    exists (LoadBalancer.pickBest 3 added), t.
    split; [done |]. split; [done |].
    assert (Hadd : LoadBalancer.addWeights 3 [5; 1; 1] [a; b; c] = (added, 7))
      by reflexivity.
    unfold LoadBalancer.pickTarget.
    cbn [LoadBalancer.state LoadBalancer.servers LoadBalancer.ws length].
    rewrite Hadd. fold added. rewrite Ht. reflexivity. }
  split; [intros; apply wrr_selections |].
  intros calls k Hlen w. subst w.
  rewrite wrr_selections, Hlen, <- fmap_drop, drop_seq.
  replace (0 + k)%nat with k by lia. replace (k + 7 - k)%nat with 7%nat by lia.
  split; [by rewrite length_fmap, length_seq |]. apply wrr_window.
Qed.

Lemma wrr_5_1_1_witness :
  let calls := replicate 10 (mkRequest None None, 0%Q) in
  drop 3 (selections (wrrAt 0) calls)
  = ["A"; "C"; "A"; "A"; "A"; "A"; "B"]%string ∧
  occurrences "A" (drop 3 (selections (wrrAt 0) calls)) = 5%nat ∧
  occurrences "B" (drop 3 (selections (wrrAt 0) calls)) = 1%nat ∧
  occurrences "C" (drop 3 (selections (wrrAt 0) calls)) = 1%nat.
Proof.
  intros calls.
  destruct wrr_5_1_1 as (_ & _ & _ & Hsel & Hwin).
  destruct (Hwin calls 3%nat eq_refl) as (_ & HA & HB & HC).
  split; [rewrite Hsel; vm_compute; reflexivity |].
  split; [exact HA |]. split; [exact HB | exact HC].
Defined.

(** C2, the sentence that fails.  The sixth and the seventh selection of
    the fresh balancer are both A, and when the seventh is made B holds
    counter 0 against 7 for A (and -1 against 2 before the weights are
    added): two consecutive selections are both A while a lower-counter
    alternative exists. *)
Lemma wrr_repeat_counterexample :
  ¬ noRepeatWhileLower (wrrAt 0) 0 ∧
  selections (wrrAt 0) (replicate 7 (mkRequest None None, 0%Q))
  = ["A"; "A"; "B"; "A"; "C"; "A"; "A"]%string ∧
  selectionCounters
    (stateAfter (wrrAt 0) (replicate 6 (mkRequest None None, 0%Q)))
  = [7; 0; 0] ∧
  wrrCurrent 6 = [2; -1; -1].
Proof.
  split; [| repeat split; vm_compute; reflexivity].
  intros H.
  apply (H (replicate 5 (mkRequest None None, 0%Q))
           (mkRequest None None) 0%Q (mkRequest None None) 0%Q);
    [vm_compute; reflexivity | vm_compute; reflexivity |].
  exists 1%nat. split; [simpl; lia | vm_compute; reflexivity].
Qed.

(** ** Connection counters *)

Section Connections.
Import LoadBalancer.

Lemma initial_counts_zero servers : ∀ (m : gmap string Z),
  map_Forall (λ _ c, c = 0) m →
  map_Forall (λ _ c, c = 0) (foldl (λ counts s, <[s := 0]> counts) m servers).
Proof.
  induction servers as [| s servers IH]; intros m Hm; simpl; [done |].
  apply IH. by apply map_Forall_insert_2.
Qed.

Lemma create_tracks strategy servers weights lb :
  strategy = least_connections ∨ strategy = weighted_least_connections →
  createLoadBalancer strategy servers weights = Some lb →
  tracks lb ∧ map_Forall (λ _ c, c = 0) (countsOf lb).
Proof.
  unfold createLoadBalancer. intros Hs. case_bool_decide; [done |].
  intros [= <-]. unfold tracks, countsOf.
  destruct Hs as [-> | ->]; simpl;
    (split; [done | apply initial_counts_zero, map_Forall_empty]).
Qed.

Lemma pick_counts lb req rnd t lb1 :
  tracks lb → pickTarget lb req rnd = Some (t, lb1) →
  tracks lb1 ∧ countsOf lb1 = <[t := activeCount lb t + 1]> (countsOf lb).
Proof.
  unfold tracks, pickTarget, activeCount, countsOf.
  destruct (state lb) as [| | | counts | counts | |]; try done; intros _.
  - destruct (servers lb !! 0%nat) as [best0 |]; simpl; [| done].
    destruct (scanLeast counts (servers lb) best0) as [best bc].
    intros [= <- <-]. done.
  - destruct (servers lb !! 0%nat) as [best0 |]; simpl; [| done].
    destruct (scanLeastWeighted counts (ws lb) (servers lb) best0) as [best bs].
    intros [= <- <-]. done.
Qed.

Lemma release_counts lb target :
  tracks lb →
  tracks (release lb target) ∧
  countsOf (release lb target) = releaseCount (countsOf lb) target.
Proof.
  unfold tracks, release, countsOf.
  destruct (state lb) as [| | | counts | counts | |]; done.
Qed.

Lemma releaseCount_lookup counts target s :
  default 0 (releaseCount counts target !! s)
  = if decide (s = target)
    then Z.max 0 (default 0 (counts !! target) - 1)
    else default 0 (counts !! s).
Proof.
  unfold releaseCount. case_decide as He.
  - subst s. rewrite lookup_insert_eq. simpl.
    destruct (counts !! target); simpl; lia.
  - by rewrite lookup_insert_ne.
Qed.

Lemma reachable_counts strategy servers weights lb0 lb :
  strategy = least_connections ∨ strategy = weighted_least_connections →
  createLoadBalancer strategy servers weights = Some lb0 →
  reachable lb0 lb →
  tracks lb ∧ map_Forall (λ _ c, 0 ≤ c) (countsOf lb).
Proof.
  intros Hs Hc Hr. induction Hr as [| lb req rnd t lb1 Hr IH H0 H1 Hp
                                     | lb target Hr IH].
  - destruct (create_tracks _ _ _ _ Hs Hc) as [Ht Hz]. split; [done |].
    eapply map_Forall_impl; [exact Hz |]. simpl. intros; lia.
  - destruct IH as [Ht Hnn].
    destruct (pick_counts _ _ _ _ _ Ht Hp) as [Ht1 ->]. split; [done |].
    apply map_Forall_insert_2; [| done]. unfold activeCount.
    destruct (countsOf lb !! t) as [c |] eqn:E; simpl; [| lia].
    apply Hnn in E. lia.
  - destruct IH as [Ht Hnn].
    destruct (release_counts lb target Ht) as [Ht1 ->]. split; [done |].
    unfold releaseCount. apply map_Forall_insert_2; [lia | done].
Qed.

End Connections.

(** C6.  Least connections and weighted least connections.  In every
    state reachable from a freshly built balancer by selections and
    releases, in any order and for any targets, every active-connection
    count is at least 0.  A selection raises the count of the backend it
    returns by exactly 1 and leaves the other counts alone; a release
    lowers the count of the named backend by 1 but not below 0 and leaves
    the other counts alone; so a release of a backend whose count is 0,
    with or without an earlier selection, leaves it at 0. *)
Theorem connection_counts_nonneg (strategy : LoadBalancer.Strategy)
    (servers : list string) (weights : option (list Z))
    (lb0 lb : LoadBalancer.LoadBalancer) :
  strategy = LoadBalancer.least_connections
  ∨ strategy = LoadBalancer.weighted_least_connections →
  LoadBalancer.createLoadBalancer strategy servers weights = Some lb0 →
  reachable lb0 lb →
  (∀ s c, countsOf lb !! s = Some c → 0 ≤ c) ∧
  (∀ s, 0 ≤ activeCount lb s) ∧
  (∀ req rnd t lb1,
     LoadBalancer.pickTarget lb req rnd = Some (t, lb1) →
     activeCount lb1 t = activeCount lb t + 1 ∧
     ∀ s, s ≠ t → activeCount lb1 s = activeCount lb s) ∧
  (∀ target,
     activeCount (LoadBalancer.release lb target) target
     = Z.max 0 (activeCount lb target - 1) ∧
     ∀ s, s ≠ target →
       activeCount (LoadBalancer.release lb target) s = activeCount lb s) ∧
  (∀ target,
     activeCount lb target = 0 →
     activeCount (LoadBalancer.release lb target) target = 0).
Proof.
  intros Hs Hc Hr.
  destruct (reachable_counts _ _ _ _ _ Hs Hc Hr) as [Ht Hnn].
  assert (Hrel : ∀ target s,
            activeCount (LoadBalancer.release lb target) s
            = if decide (s = target)
              then Z.max 0 (activeCount lb target - 1)
              else activeCount lb s).
  { intros target s. unfold activeCount.
    destruct (release_counts lb target Ht) as [_ ->].
    apply releaseCount_lookup. }
  split; [exact Hnn |].
  split.
  { intros s. unfold activeCount.
    destruct (countsOf lb !! s) as [c |] eqn:E; simpl; [by apply Hnn in E | lia]. }
  split.
  { intros req rnd t lb1 Hp.
    destruct (pick_counts _ _ _ _ _ Ht Hp) as [_ Hc1].
    unfold activeCount at 1. rewrite Hc1, lookup_insert_eq. split; [done |].
    intros s Hne. unfold activeCount at 1. by rewrite Hc1, lookup_insert_ne. }
  split.
  { intros target. split.
    - rewrite Hrel. by rewrite decide_True.
    - intros s Hne. rewrite Hrel. by rewrite decide_False. }
  intros target H0. rewrite Hrel, decide_True by done. rewrite H0. done.
Qed.

Lemma connection_counts_nonneg_witness :
  let lb0 :=
    LoadBalancer.mkLB ["A"; "B"]%string [1; 1]
      (LoadBalancer.StLeastConnections
         (<["B"%string := 0]> (<["A"%string := 0]> ∅))) in
  let lb := LoadBalancer.release (LoadBalancer.release lb0 "B") "B" in
  0 ≤ activeCount lb "B" ∧
  activeCount (LoadBalancer.release lb "B") "B" = Z.max 0 (activeCount lb "B" - 1).
Proof.
  intros lb0 lb.
  destruct (connection_counts_nonneg LoadBalancer.least_connections
              ["A"; "B"]%string None lb0 lb)
    as (_ & Hnn & _ & Hrel & _).
  - by left.
  - reflexivity.
  - apply reach_release, reach_release, reach_init.
  - split; [apply Hnn | exact (proj1 (Hrel "B"%string))].
Defined.

(** ** Selection never fails *)

Section Total.
Import LoadBalancer.

Lemma scanLeast_in counts servers best0 :
  (scanLeast counts servers best0).1 ∈ best0 :: servers.
Proof.
  unfold scanLeast.
  generalize (default 0 (counts !! best0)). intros c0.
  revert best0 c0.
  induction servers as [| s l IH]; intros best bc; simpl; [left |].
  case_match.
  - right. apply IH.
  - specialize (IH best bc). apply elem_of_cons in IH as [Heq | Hin].
    + apply elem_of_cons. left. exact Heq.
    + do 2 right. exact Hin.
Qed.

Lemma scanLeastWeighted_in counts ws servers best0 :
  (scanLeastWeighted counts ws servers best0).1 ∈ best0 :: servers.
Proof.
  unfold scanLeastWeighted.
  generalize (score counts ws best0 0). intros c0.
  assert (Hgen : ∀ (l : list (nat * string)) best bs,
            (foldl (λ '(best, bestScore) '(i, s),
                      let sc := score counts ws s i in
                      if PrimFloat.ltb sc bestScore then (s, sc)
                      else (best, bestScore))
                   (best, bs) l).1 ∈ best :: l.*2).
  { induction l as [| [i s] l IH]; intros best bs; simpl; [left |].
    case_match.
    - right. apply IH.
    - specialize (IH best bs). apply elem_of_cons in IH as [Heq | Hin].
      + apply elem_of_cons. left. exact Heq.
      + do 2 right. exact Hin. }
  specialize (Hgen (drop 1 (zip (seq 0 (length servers)) servers)) best0 c0).
  apply elem_of_cons in Hgen as [Heq | Hin];
    [apply elem_of_cons; left; exact Heq |].
  right.
  rewrite fmap_drop, snd_zip in Hin by (rewrite length_seq; lia).
  by apply (subseteq_drop 1 servers).
Qed.

(** [Math.floor(Math.random() * n)] is an index below [n]. *)
Lemma random_index (rnd : Q) (n : nat) :
  (0 <= rnd)%Q → (rnd < 1)%Q → (0 < n)%nat →
  0 ≤ Qfloor (rnd * inject_Z (Z.of_nat n)) < Z.of_nat n.
Proof.
  destruct rnd as [p q]. unfold Qle, Qlt, Qfloor, Qmult, inject_Z. simpl.
  intros H0 H1 Hn. rewrite Pos.mul_1_r. split.
  - apply Z.div_pos; lia.
  - apply Z.div_lt_upper_bound; nia.
Qed.

Lemma create_wellFormed strategy servers weights lb :
  createLoadBalancer strategy servers weights = Some lb →
  wellFormed servers lb.
Proof.
  unfold createLoadBalancer. case_bool_decide; [done |].
  intros [= <-]. split; [done |]. by destruct strategy.
Qed.

Lemma pick_wellFormed servers0 lb req rnd t lb1 :
  wellFormed servers0 lb → pickTarget lb req rnd = Some (t, lb1) →
  wellFormed servers0 lb1.
Proof.
  intros [Hs Hst]. unfold pickTarget.
  destruct (state lb) as [| idx | current | counts | counts | | ring] eqn:E;
    simpl.
  - case_match; [done |].
    destruct (servers lb !! _); simpl; [| done]. intros [= <- <-].
    split; [done |]. by rewrite E.
  - destruct (servers lb !! _); simpl; [| done]. by intros [= <- <-].
  - destruct (addWeights _ _ _) as [c1 total].
    destruct (servers lb !! _); simpl; [| done]. by intros [= <- <-].
  - destruct (servers lb !! _); simpl; [| done].
    destruct (scanLeast _ _ _). by intros [= <- <-].
  - destruct (servers lb !! _); simpl; [| done].
    destruct (scanLeastWeighted _ _ _ _). by intros [= <- <-].
  - destruct (servers lb !! _); simpl; [| done]. intros [= <- <-].
    split; [done |]. by rewrite E.
  - destruct (ringLookup _ _ _); simpl; [| done]. intros [= <- <-].
    split; [done |]. by rewrite E.
Qed.

Lemma release_wellFormed servers0 lb target :
  wellFormed servers0 lb → wellFormed servers0 (release lb target).
Proof.
  intros [Hs Hst]. unfold release.
  destruct (state lb) eqn:E; try (split; [done |]; by rewrite E); done.
Qed.

Lemma reachable_wellFormed strategy servers weights lb0 lb :
  createLoadBalancer strategy servers weights = Some lb0 →
  reachable lb0 lb → wellFormed servers lb.
Proof.
  intros Hc Hr. induction Hr.
  - by eapply create_wellFormed.
  - by eapply pick_wellFormed.
  - by apply release_wellFormed.
Qed.

(** A selection on a well-formed balancer over a non-empty list returns
    one of the configured backends. *)
Lemma pick_total servers0 lb req rnd :
  (0 < length servers0)%nat → wellFormed servers0 lb →
  (0 <= rnd)%Q → (rnd < 1)%Q →
  ∃ t lb1, pickTarget lb req rnd = Some (t, lb1) ∧ t ∈ servers0.
Proof.
  intros Hn [Hs Hst] H0 H1. unfold pickTarget. rewrite Hs.
  assert (Hget : ∀ i, (i < length servers0)%nat →
            ∃ t, servers0 !! i = Some t ∧ t ∈ servers0).
  { intros i Hi. destruct (lookup_lt_is_Some_2 servers0 i Hi) as [t Ht].
    exists t. split; [done |]. by eapply list_elem_of_lookup_2. }
  destruct (state lb) as [| idx | current | counts | counts | | ring].
  - pose proof (random_index rnd (length servers0) H0 H1 Hn) as [Hlo Hhi].
    set (i := Qfloor (rnd * inject_Z (Z.of_nat (length servers0)))) in *.
    destruct (Z.ltb_spec i 0); [lia |].
    destruct (Hget (Z.to_nat i)) as (t & Ht & Hin); [lia |].
    rewrite Ht. simpl. eauto.
  - destruct (Hget (idx mod length servers0)%nat) as (t & Ht & Hin).
    { apply Nat.mod_upper_bound. lia. }
    rewrite Ht. simpl. eauto.
  - destruct (addWeights _ _ _) as [c1 total].
    pose proof (pickBest_max c1 (length servers0)) as [Hlt _]. cbv zeta in Hlt.
    destruct (Hget (pickBest (length servers0) c1)) as (t & Ht & Hin); [lia |].
    rewrite Ht. simpl. eauto.
  - destruct (Hget 0%nat Hn) as (best0 & Hb & Hin0). rewrite Hb. simpl.
    pose proof (scanLeast_in counts servers0 best0) as Hin.
    destruct (scanLeast counts servers0 best0) as [best bc]. simpl in Hin.
    eexists _, _. split; [done |].
    by apply elem_of_cons in Hin as [-> | Hin].
  - destruct (Hget 0%nat Hn) as (best0 & Hb & Hin0). rewrite Hb. simpl.
    pose proof (scanLeastWeighted_in counts (ws lb) servers0 best0) as Hin.
    destruct (scanLeastWeighted counts (ws lb) servers0 best0) as [best bs].
    simpl in Hin. eexists _, _. split; [done |].
    by apply elem_of_cons in Hin as [-> | Hin].
  - cbv zeta.
    destruct (Hget (Z.to_nat (fnv1aHash (hashKey req)
                               mod Z.of_nat (length servers0))))
      as (t & Ht & Hin).
    { pose proof (Z.mod_pos_bound (fnv1aHash (hashKey req))
                    (Z.of_nat (length servers0)) ltac:(lia)). lia. }
    rewrite Ht. simpl. eauto.
  - subst ring. cbv zeta.
    destruct (ringLookup_ref servers0 (buildRing servers0)
                (fnv1aHash (hashKey req)) (sortByHash_ascending _))
      as (e & He & _ & Hl).
    { rewrite buildRing_length. lia. }
    rewrite Hl. simpl. eexists _, _. split; [done |].
    by apply buildRing_server.
Qed.

End Total.

(** C7.  Building a balancer over an empty backend list fails, for every
    strategy.  Over a non-empty list it succeeds, and in every state
    reachable from the balancer so built by selections and releases, a
    selection returns, for every strategy (the fallback for an unknown
    strategy name included), every request and every value drawn by the
    random strategy in [0, 1), a backend that is a member of the
    configured list. *)
Theorem select_never_fails (strategy : LoadBalancer.Strategy)
    (servers : list string) (weights : option (list Z)) :
  LoadBalancer.createLoadBalancer strategy [] weights = None ∧
  (servers ≠ [] →
   ∃ lb0,
     LoadBalancer.createLoadBalancer strategy servers weights = Some lb0 ∧
     ∀ lb req rnd,
       reachable lb0 lb → (0 <= rnd)%Q → (rnd < 1)%Q →
       ∃ t lb1,
         LoadBalancer.pickTarget lb req rnd = Some (t, lb1) ∧ t ∈ servers).
Proof.
  split; [reflexivity |].
  intros Hne.
  assert (Hn : (0 < length servers)%nat) by (destruct servers; simpl; [done | lia]).
  destruct (LoadBalancer.createLoadBalancer strategy servers weights)
    as [lb0 |] eqn:Hc.
  - exists lb0. split; [done |]. intros lb req rnd Hr H0 H1.
    apply pick_total; [done | | done | done].
    by eapply reachable_wellFormed.
  - exfalso. revert Hc. unfold LoadBalancer.createLoadBalancer.
    rewrite bool_decide_eq_false_2 by lia. done.
Qed.

Lemma select_never_fails_witness :
  ∃ lb0 t lb1,
    LoadBalancer.createLoadBalancer LoadBalancer.random
      ["http://localhost:3001"; "http://localhost:3002"]%string None
    = Some lb0 ∧
    LoadBalancer.pickTarget lb0 (mkRequest None None) (3 # 4)%Q
    = Some (t, lb1) ∧
    t ∈ ["http://localhost:3001"; "http://localhost:3002"]%string.
Proof.
  destruct (select_never_fails LoadBalancer.random
              ["http://localhost:3001"; "http://localhost:3002"]%string None)
    as [_ H].
  destruct H as (lb0 & Hc & Hp); [discriminate |].
  destruct (Hp lb0 (mkRequest None None) (3 # 4)%Q)
    as (t & lb1 & Hpick & Hin);
    [apply reach_init | discriminate | reflexivity |].
  exists lb0, t, lb1. split; [exact Hc |]. split; [exact Hpick | exact Hin].
Defined.

(** ** Hash-based selection without an identity *)

Section NoIdentity.
Import LoadBalancer.

Lemma hashKey_no_identity req : clientKey req = None → hashKey req = ""%string.
Proof.
  destruct req as [h i]. unfold clientKey, hashKey, JS.or, JS.truthy. simpl.
  destruct h as [h |], i as [i |]; simpl;
    repeat (case_bool_decide; simpl; subst; try done); done.
Qed.

Lemma fnv1aHash_empty : fnv1aHash "" = 2166136261.
Proof. reflexivity. Qed.

End NoIdentity.

(** C10.  The ip-hash and consistent-hash strategies never report a
    missing identity.  For a request that has neither an identity header
    nor a network address (more generally, one from which the limiters
    get no key) the key hashed is the empty string, whose hash is
    2166136261; the selection returns a configured backend, which is the
    one at index 2166136261 mod servers.length for ip-hash and the ring
    successor of 2166136261 for consistent-hash, and leaves the balancer
    as it was; so all such requests get the same backend. *)
Theorem hash_select_without_identity (strategy : LoadBalancer.Strategy)
    (servers : list string) (weights : option (list Z))
    (lb : LoadBalancer.LoadBalancer) :
  strategy = LoadBalancer.ip_hash ∨ strategy = LoadBalancer.consistent_hash →
  LoadBalancer.createLoadBalancer strategy servers weights = Some lb →
  LoadBalancer.hashKey (mkRequest None None) = ""%string ∧
  LoadBalancer.fnv1aHash "" = 2166136261 ∧
  (∀ req rnd,
     clientKey req = None →
     ∃ t,
       LoadBalancer.pickTarget lb req rnd = Some (t, lb) ∧ t ∈ servers ∧
       (strategy = LoadBalancer.ip_hash →
        servers !! Z.to_nat (2166136261 mod Z.of_nat (length servers))
        = Some t) ∧
       (strategy = LoadBalancer.consistent_hash →
        ringLookupRef (LoadBalancer.buildRing servers) 2166136261 = Some t)) ∧
  (∀ req1 rnd1 req2 rnd2,
     clientKey req1 = None → clientKey req2 = None →
     LoadBalancer.pickTarget lb req1 rnd1 = LoadBalancer.pickTarget lb req2 rnd2).
Proof.
  intros Hs Hc.
  destruct (create_nonempty _ _ _ _ Hc) as [Hn Hservers].
  split; [reflexivity |]. split; [apply fnv1aHash_empty |].
  assert (Hpick : ∀ req rnd, clientKey req = None →
            LoadBalancer.pickTarget lb req rnd
            = LoadBalancer.pickTarget lb (mkRequest None None) 0%Q).
  { intros req rnd Hk. revert Hc. unfold LoadBalancer.createLoadBalancer.
    case_bool_decide; [done |]. intros [= <-].
    unfold LoadBalancer.pickTarget.
    destruct Hs as [-> | ->]; simpl; by rewrite (hashKey_no_identity req Hk). }
  split.
  - intros req rnd Hk. rewrite (Hpick req rnd Hk).
    destruct Hs as [-> | ->].
    + destruct (lookup_lt_is_Some_2 servers
                  (Z.to_nat (2166136261 mod Z.of_nat (length servers))))
        as [t Ht].
      { pose proof (Z.mod_pos_bound 2166136261 (Z.of_nat (length servers))
                      ltac:(lia)). lia. }
      exists t. revert Hc. unfold LoadBalancer.createLoadBalancer.
      case_bool_decide; [done |]. intros [= <-].
      unfold LoadBalancer.pickTarget. cbn [LoadBalancer.state LoadBalancer.servers].
      change (LoadBalancer.fnv1aHash (LoadBalancer.hashKey (mkRequest None None)))
        with 2166136261.
      cbv zeta. rewrite Ht. simpl.
      split; [done |]. split; [by eapply list_elem_of_lookup_2 |].
      split; [done | discriminate].
    + destruct (consistent_hash_select_core servers weights lb Hc
                  (mkRequest None None) 0%Q) as (e & He & Href & Hp).
      exists (LoadBalancer.server e). split; [done |].
      split; [by apply buildRing_server |].
      split; [discriminate | intros _; exact Href].
  - intros req1 rnd1 req2 rnd2 H1 H2.
    by rewrite (Hpick req1 rnd1 H1), (Hpick req2 rnd2 H2).
Qed.

Lemma hash_select_without_identity_witness :
  ∃ t,
    LoadBalancer.pickTarget
      (LoadBalancer.mkLB ["http://localhost:3001"; "http://localhost:3002";
                          "http://localhost:3003"]%string [1; 1; 1]
         LoadBalancer.StIpHash)
      (mkRequest None None) 0%Q
    = Some (t, LoadBalancer.mkLB
                 ["http://localhost:3001"; "http://localhost:3002";
                  "http://localhost:3003"]%string [1; 1; 1]
                 LoadBalancer.StIpHash) ∧
    ["http://localhost:3001"; "http://localhost:3002";
     "http://localhost:3003"]%string
      !! Z.to_nat (2166136261 mod Z.of_nat 3) = Some t.
Proof.
  destruct (hash_select_without_identity LoadBalancer.ip_hash
              ["http://localhost:3001"; "http://localhost:3002";
               "http://localhost:3003"]%string None
              (LoadBalancer.mkLB
                 ["http://localhost:3001"; "http://localhost:3002";
                  "http://localhost:3003"]%string [1; 1; 1]
                 LoadBalancer.StIpHash))
    as (_ & _ & H & _); [by left | reflexivity |].
  destruct (H (mkRequest None None) 0%Q eq_refl) as (t & Hp & _ & Hi & _).
  exists t. split; [exact Hp | exact (Hi eq_refl)].
Defined.

(** ** The definitions on concrete inputs *)

Section Examples.
Import LoadBalancer.

(** Published FNV-1a test vectors. *)
Example fnv1aHash_a : fnv1aHash "a" = 3826002220.
Proof. reflexivity. Qed.

Example fnv1aHash_foobar : fnv1aHash "foobar" = 3214735720.
Proof. reflexivity. Qed.

Example vnodeKey_42 :
  vnodeKey "http://localhost:3001" 42 = "http://localhost:3001#42"%string.
Proof. reflexivity. Qed.

(** Round robin over A, B, C: six selections. *)
Example round_robin_six :
  selections (mkLB ["A"; "B"; "C"]%string [1; 1; 1] (StRoundRobin 0))
    (replicate 6 (mkRequest None None, 0%Q))
  = ["A"; "B"; "C"; "A"; "B"; "C"]%string.
Proof. vm_compute. reflexivity. Qed.

(** Least connections with counts A:3, B:1, C:2 selects B. *)
Example least_connections_B :
  fst <$> pickTarget
            (mkLB ["A"; "B"; "C"]%string [1; 1; 1]
               (StLeastConnections
                  (<["C"%string := 2]>
                     (<["B"%string := 1]> (<["A"%string := 3]> ∅)))))
            (mkRequest None None) 0%Q
  = Some "B"%string.
Proof. vm_compute. reflexivity. Qed.

(** Weighted least connections compares count / weight. *)
Example weighted_least_connections_A :
  fst <$> pickTarget
            (mkLB ["A"; "B"]%string [5; 1]
               (StWeightedLeastConnections
                  (<["B"%string := 1]> (<["A"%string := 4]> ∅))))
            (mkRequest None None) 0%Q
  = Some "A"%string.
Proof. vm_compute. reflexivity. Qed.

(** The leaky bucket leaks one request after a full second. *)
Example leaky_after_one_second :
  (LeakyBucket.leakyBucketRateLimiter
     {["C"%string := LeakyBucket.mkBucket 5 0]}
     (mkRequest (Some "C"%string) None) 1000).2 = Next ∧
  (LeakyBucket.leakyBucketRateLimiter
     {["C"%string := LeakyBucket.mkBucket 5 0]}
     (mkRequest (Some "C"%string) None) 999).2
  = Json 429 "Rate limit exceeded".
Proof. split; vm_compute; reflexivity. Qed.

(** A token bucket emptied at time 0 has not regained a token at 1999 ms. *)
Example token_after_1999 :
  (TokenBucket.tokenBucketRateLimiter
     {["C"%string := TokenBucket.mkBucket 0 0]}
     (mkRequest (Some "C"%string) None) 1999).2
  = Json 429 "Rate limit exceeded".
Proof. vm_compute. reflexivity. Qed.

End Examples.

(** * Further properties of the limiters *)

Section LimiterShape.

Lemma fixed_keyed clients req now :
  FixedWindow.rateLimiter clients req now
  = keyed "Unable to determine client IP" fixedStep clients req now.
Proof.
  unfold FixedWindow.rateLimiter, keyed, fixedStep.
  destruct (clientKey req) as [k |]; [| done].
  destruct (clients !! k) as [r |]; [| done].
  unfold FixedWindow.WINDOW_SIZE_IN_MS, FixedWindow.MAX_REQUESTS_PER_WINDOW.
  by repeat case_match.
Qed.

Lemma sliding_keyed clients req now :
  SlidingWindow.slidingWindowLogRateLimiter clients req now
  = keyed "Unable to determine client ID" slidingStep clients req now.
Proof.
  unfold SlidingWindow.slidingWindowLogRateLimiter, keyed, slidingStep.
  destruct (clientKey req) as [k |]; [| done].
  unfold SlidingWindow.WINDOW_SIZE, SlidingWindow.MAX_REQUESTS. cbv zeta.
  by case_match.
Qed.

Lemma leaky_keyed clients req now :
  LeakyBucket.leakyBucketRateLimiter clients req now
  = keyed "No client ID" leakyStep clients req now.
Proof.
  unfold LeakyBucket.leakyBucketRateLimiter, keyed, leakyStep.
  destruct (clientKey req) as [k |]; [| done].
  unfold LeakyBucket.BUCKET_CAPACITY. cbv zeta. by case_match.
Qed.

Lemma token_keyed clients req now :
  TokenBucket.tokenBucketRateLimiter clients req now
  = keyed "No client ID" tokenStep clients req now.
Proof.
  unfold TokenBucket.tokenBucketRateLimiter, keyed, tokenStep.
  destruct (clientKey req) as [k |]; [| done].
  change TokenBucket.BUCKET_CAPACITY with 5%float. cbv zeta. by case_match.
Qed.

(** Two calls with different keys can be swapped. *)
Lemma keyed_commute {V : Type} missing
    (step : option V → Z → option V * Response) clients r1 t1 r2 t2 :
  clientKey r1 ≠ clientKey r2 →
  (keyed missing step (keyed missing step clients r1 t1).1 r2 t2).1
  = (keyed missing step (keyed missing step clients r2 t2).1 r1 t1).1 ∧
  (keyed missing step (keyed missing step clients r2 t2).1 r1 t1).2
  = (keyed missing step clients r1 t1).2 ∧
  (keyed missing step (keyed missing step clients r1 t1).1 r2 t2).2
  = (keyed missing step clients r2 t2).2.
Proof.
  intros Hne. unfold keyed.
  destruct (clientKey r1) as [k1 |], (clientKey r2) as [k2 |]; simpl;
    try done.
  assert (k1 ≠ k2) by congruence.
  destruct (step (clients !! k1) t1) as [[v1 |] a] eqn:E1,
           (step (clients !! k2) t2) as [[v2 |] b] eqn:E2; simpl;
    rewrite ?lookup_insert_ne by done; rewrite ?E1, ?E2; simpl;
    split_and!; try done.
  by apply insert_insert_ne.
Qed.

Lemma runCalls_app {S : Type} (mw : S → Request → Z → S * Response) l1 :
  ∀ s l2,
    runCalls mw s (l1 ++ l2)
    = ((runCalls mw (runCalls mw s l1).1 l2).1,
       (runCalls mw s l1).2 ++ (runCalls mw (runCalls mw s l1).1 l2).2).
Proof.
  induction l1 as [| [req now] l1 IH]; intros s l2; simpl.
  - by destruct (runCalls mw s l2).
  - destruct (mw s req now) as [s1 r]. rewrite IH.
    destruct (runCalls mw s1 l1) as [s2 rs]. simpl.
    by destruct (runCalls mw s2 l2).
Qed.

Lemma runCalls_one {S : Type} (mw : S → Request → Z → S * Response) s req now :
  runCalls mw s [(req, now)] = ((mw s req now).1, [(mw s req now).2]).
Proof. simpl. by destruct (mw s req now). Qed.

(** A property of the map that every call preserves holds after any
    sequence of calls. *)
Lemma runCalls_invariant {S : Type} (mw : S → Request → Z → S * Response)
    (P : S → Prop) :
  (∀ s req now, P s → P (mw s req now).1) →
  ∀ calls s, P s → P (runCalls mw s calls).1.
Proof.
  intros Hstep. induction calls as [| [req now] calls IH]; intros s Hs; [done |].
  simpl. specialize (Hstep s req now Hs).
  destruct (mw s req now) as [s1 r]. specialize (IH s1 Hstep).
  by destruct (runCalls mw s1 calls).
Qed.

End LimiterShape.

(** X1.  Calls of different clients commute, in each of the four limiters:
    when two requests resolve to different keys (or one of them to none),
    handling them in either order leaves the same map and gives each
    request the same outcome. *)
Theorem limiter_calls_commute (r1 r2 : Request) (t1 t2 : Z) :
  clientKey r1 ≠ clientKey r2 →
  (∀ clients,
     runCalls FixedWindow.rateLimiter clients [(r1, t1); (r2, t2)]
     = ((runCalls FixedWindow.rateLimiter clients [(r2, t2); (r1, t1)]).1,
        reverse (runCalls FixedWindow.rateLimiter clients
                   [(r2, t2); (r1, t1)]).2)) ∧
  (∀ clients,
     runCalls SlidingWindow.slidingWindowLogRateLimiter clients
       [(r1, t1); (r2, t2)]
     = ((runCalls SlidingWindow.slidingWindowLogRateLimiter clients
           [(r2, t2); (r1, t1)]).1,
        reverse (runCalls SlidingWindow.slidingWindowLogRateLimiter clients
                   [(r2, t2); (r1, t1)]).2)) ∧
  (∀ clients,
     runCalls LeakyBucket.leakyBucketRateLimiter clients [(r1, t1); (r2, t2)]
     = ((runCalls LeakyBucket.leakyBucketRateLimiter clients
           [(r2, t2); (r1, t1)]).1,
        reverse (runCalls LeakyBucket.leakyBucketRateLimiter clients
                   [(r2, t2); (r1, t1)]).2)) ∧
  (∀ clients,
     runCalls TokenBucket.tokenBucketRateLimiter clients [(r1, t1); (r2, t2)]
     = ((runCalls TokenBucket.tokenBucketRateLimiter clients
           [(r2, t2); (r1, t1)]).1,
        reverse (runCalls TokenBucket.tokenBucketRateLimiter clients
                   [(r2, t2); (r1, t1)]).2)).
Proof.
  intros Hne.
  assert (Hgen : ∀ (V : Type) missing
                   (step : option V → Z → option V * Response) clients,
            runCalls (keyed missing step) clients [(r1, t1); (r2, t2)]
            = ((runCalls (keyed missing step) clients [(r2, t2); (r1, t1)]).1,
               reverse (runCalls (keyed missing step) clients
                          [(r2, t2); (r1, t1)]).2)).
  { intros V missing step clients.
    destruct (keyed_commute missing step clients r1 t1 r2 t2 Hne)
      as (Hs & Ha & Hb).
    simpl.
    destruct (keyed missing step clients r1 t1) as [s1 a] eqn:E1.
    destruct (keyed missing step clients r2 t2) as [s2 b] eqn:E2.
    simpl in *.
    destruct (keyed missing step s1 r2 t2) as [s12 b'] eqn:E12.
    destruct (keyed missing step s2 r1 t1) as [s21 a'] eqn:E21.
    simpl in *. by subst. }
  assert (Hext : ∀ (V : Type) (f g : gmap string V → Request → Z
                                     → gmap string V * Response),
            (∀ s r t, f s r t = g s r t) →
            ∀ s calls, runCalls f s calls = runCalls g s calls).
  { intros V f g Hfg s calls. revert s.
    induction calls as [| [r t] calls IH]; intros s; simpl; [done |].
    rewrite Hfg. destruct (g s r t) as [s1 x]. by rewrite IH. }
  split_and!; intros clients.
  - rewrite !(Hext _ _ _ fixed_keyed). apply Hgen.
  - rewrite !(Hext _ _ _ sliding_keyed). apply Hgen.
  - rewrite !(Hext _ _ _ leaky_keyed). apply Hgen.
  - rewrite !(Hext _ _ _ token_keyed). apply Hgen.
Qed.

Lemma limiter_calls_commute_witness :
  runCalls FixedWindow.rateLimiter ∅
    [(mkRequest (Some "A"%string) None, 0); (mkRequest (Some "a"%string) None, 5)]
  = ((runCalls FixedWindow.rateLimiter ∅
        [(mkRequest (Some "a"%string) None, 5);
         (mkRequest (Some "A"%string) None, 0)]).1,
     reverse (runCalls FixedWindow.rateLimiter ∅
                [(mkRequest (Some "a"%string) None, 5);
                 (mkRequest (Some "A"%string) None, 0)]).2).
Proof.
  destruct (limiter_calls_commute (mkRequest (Some "A"%string) None)
              (mkRequest (Some "a"%string) None) 0 5) as [H _];
    [discriminate |].
  apply H.
Defined.

Section LimiterInvariants.

Lemma clientKey_nonempty (req : Request) (k : string) :
  clientKey req = Some k → k ≠ ""%string.
Proof.
  unfold clientKey. destruct (JS.or _ _) as [s |] eqn:E; simpl; [| done].
  case_bool_decide; simpl; [done |]. by intros [= <-].
Qed.

(** An entry property that the per-client step establishes for what it
    writes is kept by the whole map, and no entry is written under the
    empty key. *)
Lemma keyed_invariant {V : Type} missing
    (step : option V → Z → option V * Response) (Q : V → Prop) :
  (∀ o now v r, step o now = (Some v, r) → (∀ x, o = Some x → Q x) → Q v) →
  ∀ clients req now,
    map_Forall (λ k v, k ≠ ""%string ∧ Q v) clients →
    map_Forall (λ k v, k ≠ ""%string ∧ Q v) (keyed missing step clients req now).1.
Proof.
  intros Hstep clients req now Hm. unfold keyed.
  destruct (clientKey req) as [k |] eqn:Hk; [| done].
  destruct (step (clients !! k) now) as [[v |] r] eqn:E; simpl; [| done].
  apply map_Forall_insert_2; [| done].
  split; [by eapply clientKey_nonempty |].
  eapply Hstep; [exact E |]. intros x Hx. by destruct (Hm k x Hx).
Qed.

Lemma fixed_in_window req c :
  clientKey req = Some c →
  ∀ times (k : nat) clients t1,
    (1 ≤ k ≤ 5)%nat →
    Forall (λ t, t - t1 ≤ 60000) times →
    runCalls FixedWindow.rateLimiter
      (<[c := FixedWindow.mkRecord (Z.of_nat k) t1]> clients)
      (callsAt req times)
    = (<[c := FixedWindow.mkRecord
               (Z.of_nat (Nat.min 5 (k + length times))) t1]> clients,
       replicate (Nat.min (length times) (5 - k)) Next
       ++ replicate (length times - (5 - k))
            (Json 429 "Rate limit exceeded")).
Proof.
  intros Hkey. induction times as [| t times IH]; intros k clients t1 Hk Hin.
  - cbn [callsAt fmap list_fmap runCalls length].
    replace (Nat.min 5 (k + 0)) with k by lia.
    replace (Nat.min 0 (5 - k)) with 0%nat by lia. done.
  - apply Forall_cons in Hin as [Ht Hin]. cbn [callsAt fmap list_fmap runCalls].
    destruct (decide (k < 5)%nat) as [Hlt | Hge].
    + rewrite (fixed_room req c Hkey _ t (FixedWindow.mkRecord (Z.of_nat k) t1))
        by (rewrite ?lookup_insert_eq; simpl; first [done | lia]).
      rewrite insert_insert_eq. simpl FixedWindow.count.
      simpl FixedWindow.windowStart.
      replace (Z.of_nat k + 1) with (Z.of_nat (S k)) by lia.
      fold (callsAt req times). rewrite (IH (S k)) by (first [lia | done]).
      cbn [length].
      replace (Nat.min 5 (S k + length times))
        with (Nat.min 5 (k + S (length times))) by lia.
      replace (Nat.min (S (length times)) (5 - k))
        with (S (Nat.min (length times) (5 - S k))) by lia.
      replace (S (length times) - (5 - k))%nat
        with (length times - (5 - S k))%nat by lia.
      done.
    + assert (k = 5%nat) as -> by lia.
      rewrite (fixed_full req c Hkey _ t (FixedWindow.mkRecord 5 t1))
        by (rewrite ?lookup_insert_eq; simpl; first [done | lia]).
      fold (callsAt req times). rewrite (IH 5%nat) by (first [lia | done]).
      cbn [length].
      replace (Nat.min 5 (5 + S (length times))) with 5%nat by lia.
      replace (Nat.min 5 (5 + length times)) with 5%nat by lia.
      replace (Nat.min (S (length times)) (5 - 5)) with 0%nat by lia.
      replace (Nat.min (length times) (5 - 5)) with 0%nat by lia.
      replace (S (length times) - (5 - 5))%nat with (S (length times)) by lia.
      replace (length times - (5 - 5))%nat with (length times) by lia.
      done.
Qed.

Lemma fixed_window_burst_core clients req c t1 times :
  clientKey req = Some c →
  clients !! c = None →
  Forall (λ t, t - t1 ≤ 60000) times →
  runCalls FixedWindow.rateLimiter clients (callsAt req (t1 :: times))
  = (<[c := FixedWindow.mkRecord
             (Z.of_nat (Nat.min 5 (S (length times)))) t1]> clients,
     replicate (Nat.min 5 (S (length times))) Next
     ++ replicate (S (length times) - 5) (Json 429 "Rate limit exceeded")).
Proof.
  intros Hkey Hnew Hin. cbn [callsAt fmap list_fmap runCalls].
  rewrite (fixed_new req c Hkey) by done.
  fold (callsAt req times).
  change (FixedWindow.mkRecord 1 t1)
    with (FixedWindow.mkRecord (Z.of_nat 1) t1).
  rewrite (fixed_in_window req c Hkey times 1 clients t1) by (first [lia | done]).
  replace (Nat.min 5 (S (length times))) with (S (Nat.min (length times) 4))
    by lia.
  replace (Nat.min 5 (1 + length times)) with (S (Nat.min (length times) 4))
    by lia.
  replace (S (length times) - 5)%nat with (length times - 4)%nat by lia.
  done.
Qed.

End LimiterInvariants.

(** X2.  Fixed window, any burst.  For a client never seen before, when
    every call after the first comes no later than 60000 ms after the
    first, exactly the first five calls are admitted and all later ones
    are answered 429, however many there are; the record keeps the time of
    the first call and its count stops at 5. *)
Theorem fixed_window_burst (clients : gmap string FixedWindow.ClientRecord)
    (req : Request) (c : string) (t1 : Z) (times : list Z) :
  clientKey req = Some c →
  clients !! c = None →
  Forall (λ t, t - t1 ≤ 60000) times →
  runCalls FixedWindow.rateLimiter clients (callsAt req (t1 :: times))
  = (<[c := FixedWindow.mkRecord
             (Z.of_nat (Nat.min 5 (S (length times)))) t1]> clients,
     replicate (Nat.min 5 (S (length times))) Next
     ++ replicate (S (length times) - 5) (Json 429 "Rate limit exceeded")).
Proof. apply fixed_window_burst_core. Qed.

Lemma fixed_window_burst_witness :
  runCalls FixedWindow.rateLimiter ∅
    (callsAt (mkRequest (Some "C"%string) None) [0; 1; 2; 3; 4; 5; 6; 60000])
  = ({["C"%string := FixedWindow.mkRecord 5 0]},
     [Next; Next; Next; Next; Next; Json 429 "Rate limit exceeded";
      Json 429 "Rate limit exceeded"; Json 429 "Rate limit exceeded"]).
Proof.
  rewrite (fixed_window_burst ∅ (mkRequest (Some "C"%string) None) "C"%string
             0 [1; 2; 3; 4; 5; 6; 60000] eq_refl (lookup_empty _)).
  - by rewrite insert_empty.
  - repeat (constructor; [lia |]). constructor.
Defined.

(** X3.  Fixed window, invariant.  Starting from the empty map, after any
    sequence of calls (any requests, any clock readings, going back in
    time included) every stored record has a count between 1 and 5, and
    no record is stored under the empty key. *)
Theorem fixed_window_count_bounds (calls : list (Request * Z))
    (k : string) (r : FixedWindow.ClientRecord) :
  (runCalls FixedWindow.rateLimiter ∅ calls).1 !! k = Some r →
  k ≠ ""%string ∧ 1 ≤ FixedWindow.count r ≤ 5.
Proof.
  revert k r.
  change (map_Forall (λ k r, k ≠ ""%string ∧ 1 ≤ FixedWindow.count r ≤ 5)
            (runCalls FixedWindow.rateLimiter ∅ calls).1).
  apply runCalls_invariant; [| apply map_Forall_empty].
  intros s req now Hs. rewrite fixed_keyed.
  apply (keyed_invariant _ fixedStep (λ r, 1 ≤ FixedWindow.count r ≤ 5)); [| done].
  clear. intros o now v r Hstep Ho. unfold fixedStep in Hstep.
  destruct o as [x |]; [| injection Hstep as <- _; simpl; lia].
  specialize (Ho x eq_refl).
  destruct (60000 <? now - FixedWindow.windowStart x);
    [injection Hstep as <- _; simpl; lia |].
  destruct (Z.ltb_spec (FixedWindow.count x) 5);
    [injection Hstep as <- _; simpl; lia | done].
Qed.

Lemma fixed_window_count_bounds_witness :
  "C"%string ≠ ""%string ∧ 1 ≤ FixedWindow.count (FixedWindow.mkRecord 2 7) ≤ 5.
Proof.
  apply (fixed_window_count_bounds
           [(mkRequest (Some "C"%string) None, 7);
            (mkRequest None (Some "C"%string), 3)]).
  vm_compute. reflexivity.
Defined.

(** X4.  Fixed window, burst across the boundary.  A client whose first
    call is at time t uses one slot at t, four at t + 60000 (still inside
    the window) and, the window having expired one millisecond later,
    five more at t + 60001: nine requests within two milliseconds are all
    admitted, and the next one is answered 429. *)
Theorem fixed_window_boundary_burst
    (clients : gmap string FixedWindow.ClientRecord)
    (req : Request) (c : string) (t : Z) :
  clientKey req = Some c →
  clients !! c = None →
  runCalls FixedWindow.rateLimiter clients
    (callsAt req (t :: replicate 4 (t + 60000) ++ replicate 6 (t + 60001)))
  = (<[c := FixedWindow.mkRecord 5 (t + 60001)]> clients,
     replicate 10 Next ++ [Json 429 "Rate limit exceeded"]).
Proof.
  intros Hkey Hnew.
  change (t :: replicate 4 (t + 60000) ++ replicate 6 (t + 60001))
    with ((t :: replicate 4 (t + 60000))
          ++ [t + 60001] ++ replicate 5 (t + 60001)).
  unfold callsAt. rewrite !fmap_app, !runCalls_app.
  fold (callsAt req (t :: replicate 4 (t + 60000))).
  rewrite (fixed_window_burst_core clients req c t (replicate 4 (t + 60000)))
    by (first [done | repeat (constructor; [lia |]); constructor]).
  cbn [fst snd length replicate Nat.min Nat.sub fmap list_fmap].
  rewrite runCalls_one.
  rewrite (fixed_expired req c Hkey _ (t + 60001) (FixedWindow.mkRecord 5 t))
    by (rewrite ?lookup_insert_eq; simpl; first [done | lia]).
  rewrite insert_insert_eq. cbn [fst snd].
  change (FixedWindow.mkRecord 1 (t + 60001))
    with (FixedWindow.mkRecord (Z.of_nat 1) (t + 60001)).
  pose proof (fixed_in_window req c Hkey (replicate 5 (t + 60001)) 1 clients
                (t + 60001)) as H.
  cbn [callsAt fmap list_fmap replicate] in H. rewrite H.
  - done.
  - lia.
  - repeat (constructor; [lia |]). constructor.
Qed.

Lemma fixed_window_boundary_burst_witness :
  runCalls FixedWindow.rateLimiter ∅
    (callsAt (mkRequest (Some "C"%string) None)
       (0 :: replicate 4 (0 + 60000) ++ replicate 6 (0 + 60001)))
  = ({["C"%string := FixedWindow.mkRecord 5 (0 + 60001)]},
     replicate 10 Next ++ [Json 429 "Rate limit exceeded"]).
Proof.
  rewrite (fixed_window_boundary_burst ∅ (mkRequest (Some "C"%string) None)
             "C"%string 0 eq_refl (lookup_empty _)).
  by rewrite insert_empty.
Defined.

(** ** Sliding window log: what is stored, and the rate it enforces *)

Section SlidingRate.

(** X5's entry property. *)
Lemma slidingStep_entry o now v r :
  slidingStep o now = (Some v, r) →
  (1 ≤ length v ≤ 2)%nat ∧ last v = Some now ∧
  Forall (λ ts, now - ts ≤ 5000) v.
Proof.
  unfold slidingStep. cbv zeta.
  destruct (Nat.leb_spec 2 (length (filter (λ ts, now - ts ≤ 5000) (default [] o))));
    [done |].
  intros [= <- _]. rewrite length_app. simpl. split; [lia |].
  split; [apply last_snoc |].
  apply Forall_app. split.
  - apply Forall_forall. by intros x [Hx _]%list_elem_of_filter.
  - constructor; [lia | constructor].
Qed.

(** On an ascending log the stale timestamps form a prefix. *)
Lemma freshAt_suffix now log :
  StronglySorted Z.le log →
  ∃ dropped, log = dropped ++ freshAt now log ∧
             Forall (λ x, 5000 < now - x) dropped.
Proof.
  unfold freshAt. induction 1 as [| x l Hs IH Hx].
  - exists []. done.
  - destruct (decide (now - 5000 ≤ x)) as [Hk | Hd].
    + exists []. split; [| constructor]. simpl.
      rewrite filter_cons_True by done. f_equal.
      clear IH Hs. induction Hx as [| y l Hy Hl IHl]; [done |].
      rewrite filter_cons_True by lia. by rewrite <- IHl.
    + destruct IH as (d & Hl & Hd'). exists (x :: d).
      rewrite filter_cons_False by done. split.
      * simpl. by rewrite <- Hl.
      * constructor; [lia | done].
Qed.

Lemma freshAt_sorted now log :
  StronglySorted Z.le log → StronglySorted Z.le (freshAt now log).
Proof.
  unfold freshAt. induction 1 as [| x l Hs IH Hx]; [constructor |].
  destruct (decide (now - 5000 ≤ x)).
  - rewrite filter_cons_True by done. constructor; [done |].
    apply Forall_forall. intros y [_ Hy]%list_elem_of_filter.
    by eapply Forall_forall in Hx.
  - by rewrite filter_cons_False.
Qed.

Lemma sorted_snoc (l : list Z) t :
  StronglySorted Z.le l → Forall (λ x, x ≤ t) l → StronglySorted Z.le (l ++ [t]).
Proof.
  intros Hs Hl. apply StronglySorted_app. split_and!.
  - intros x1 x2 H1 ->%list_elem_of_singleton. by eapply Forall_forall in Hl.
  - done.
  - repeat constructor.
Qed.

Lemma noThree_snoc pre fresh t :
  noThreeWithinWindow (pre ++ fresh) →
  (length fresh ≤ 1)%nat →
  Forall (λ x, 5000 < t - x) pre →
  noThreeWithinWindow (pre ++ fresh ++ [t]).
Proof.
  intros Hold Hlen Hpre i a b Ha Hb. rewrite app_assoc in Ha, Hb.
  destruct (decide (i + 2 < length (pre ++ fresh))%nat) as [Hin | Hout].
  - rewrite lookup_app_l in Ha, Hb by lia. by eapply Hold.
  - assert (Hi : (i + 2 = length (pre ++ fresh))%nat).
    { apply lookup_lt_Some in Hb. rewrite length_app in Hb. simpl in Hb. lia. }
    rewrite lookup_app_r in Hb by lia.
    replace (i + 2 - length (pre ++ fresh))%nat with 0%nat in Hb by lia.
    injection Hb as <-.
    rewrite length_app in Hi.
    rewrite lookup_app_l in Ha by (rewrite length_app; lia).
    rewrite lookup_app_l in Ha by lia.
    by eapply Forall_lookup_1 in Hpre.
Qed.

Lemma sliding_rate_gen req c :
  clientKey req = Some c →
  ∀ times clients pre log tl,
    default [] (clients !! c) = log →
    (length log ≤ 2)%nat →
    StronglySorted Z.le log →
    Forall (λ x, x ≤ tl) log →
    Forall (λ x, 5000 < tl - x) pre →
    noThreeWithinWindow (pre ++ log) →
    nondecreasing tl times →
    noThreeWithinWindow
      (pre ++ log
       ++ admittedTimes times
            (runCalls SlidingWindow.slidingWindowLogRateLimiter clients
               (callsAt req times)).2).
Proof.
  intros Hkey.
  induction times as [| t times IH];
    intros clients pre log tl Hlog Hlen Hsort Hle Hpre Hno Hnd.
  - simpl. by rewrite app_nil_r.
  - destruct Hnd as [Ht Hnd]. cbn [callsAt fmap list_fmap runCalls].
    fold (callsAt req times).
    assert (Hle' : Forall (λ x, x ≤ t) log)
      by (eapply Forall_impl; [exact Hle | simpl; intros; lia]).
    assert (Hpre' : Forall (λ x, 5000 < t - x) pre)
      by (eapply Forall_impl; [exact Hpre | simpl; intros; lia]).
    destruct (decide (2 ≤ length (freshAt t log))%nat) as [Hfull | Hroom].
    + rewrite (sliding_deny req c Hkey) by (by rewrite Hlog).
      specialize (IH clients pre log t Hlog Hlen Hsort Hle' Hpre' Hno Hnd).
      destruct (runCalls _ clients (callsAt req times)) as [s2 rs]. exact IH.
    + rewrite (sliding_admit req c Hkey) by (rewrite Hlog; lia).
      rewrite Hlog.
      destruct (freshAt_suffix t log Hsort) as (dropped & Hsplit & Hdropped).
      specialize (IH (<[c := freshAt t log ++ [t]]> clients)
                    (pre ++ dropped) (freshAt t log ++ [t]) t).
      destruct (runCalls _ (<[c := freshAt t log ++ [t]]> clients)
                  (callsAt req times)) as [s2 rs].
      cbn [snd admittedTimes] in IH |- *.
      replace (pre ++ log ++ t :: admittedTimes times rs)
        with ((pre ++ dropped) ++ (freshAt t log ++ [t])
              ++ admittedTimes times rs).
      2:{ rewrite <- !app_assoc. f_equal. rewrite app_assoc, <- Hsplit. done. }
      apply IH.
      * by rewrite lookup_insert_eq.
      * rewrite length_app. simpl. lia.
      * apply sorted_snoc; [by apply freshAt_sorted |].
        apply Forall_forall. intros x [_ Hx]%list_elem_of_filter.
        by eapply Forall_forall in Hle'.
      * apply Forall_app. split; [| constructor; [lia | constructor]].
        apply Forall_forall. intros x [_ Hx]%list_elem_of_filter.
        by eapply Forall_forall in Hle'.
      * apply Forall_app. done.
      * apply (noThree_snoc (pre ++ dropped) (freshAt t log) t); [| lia |].
        -- rewrite <- app_assoc, <- Hsplit. done.
        -- by apply Forall_app.
      * done.
Qed.

End SlidingRate.

(** X5.  Sliding window log, invariant.  Starting from the empty map,
    after any sequence of calls (any requests, any clock readings) every
    stored log holds one or two timestamps, each at most 5000 ms before
    the last one stored, and no log is stored under the empty key. *)
Theorem sliding_window_log_bounds (calls : list (Request * Z))
    (k : string) (log : list Z) :
  (runCalls SlidingWindow.slidingWindowLogRateLimiter ∅ calls).1 !! k
  = Some log →
  k ≠ ""%string ∧ (1 ≤ length log ≤ 2)%nat ∧
  ∃ x, last log = Some x ∧ Forall (λ ts, x - ts ≤ 5000) log.
Proof.
  revert k log.
  change (map_Forall
            (λ k log, k ≠ ""%string ∧
               ((1 ≤ length log ≤ 2)%nat ∧
                ∃ x, last log = Some x ∧ Forall (λ ts, x - ts ≤ 5000) log))
            (runCalls SlidingWindow.slidingWindowLogRateLimiter ∅ calls).1).
  apply runCalls_invariant; [| apply map_Forall_empty].
  intros s req now Hs. rewrite sliding_keyed.
  apply (keyed_invariant _ slidingStep
           (λ log, (1 ≤ length log ≤ 2)%nat ∧
                   ∃ x, last log = Some x ∧ Forall (λ ts, x - ts ≤ 5000) log));
    [| done].
  clear. intros o now v r Hstep _.
  destruct (slidingStep_entry o now v r Hstep) as (Hlen & Hlast & Hall).
  split; [done |]. by exists now.
Qed.

Lemma sliding_window_log_bounds_witness :
  "C"%string ≠ ""%string ∧ (1 ≤ length [0; 4000]%Z ≤ 2)%nat ∧
  ∃ x, last [0; 4000] = Some x ∧ Forall (λ ts, x - ts ≤ 5000) [0; 4000].
Proof.
  apply (sliding_window_log_bounds
           [(mkRequest (Some "C"%string) None, 0);
            (mkRequest (Some "C"%string) None, 4000);
            (mkRequest (Some "C"%string) None, 4500)]).
  vm_compute. reflexivity.
Defined.

(** X6.  Sliding window log, the rate it enforces.  When the clock never
    goes back, a client never seen before is admitted at most twice in any
    5000 ms: of any three successive admitted calls of that client the
    third comes more than 5000 ms after the first, however many calls are
    made and however they are spaced. *)
Theorem sliding_window_rate (clients : gmap string (list Z))
    (req : Request) (c : string) (t0 : Z) (times : list Z) :
  clientKey req = Some c →
  clients !! c = None →
  nondecreasing t0 times →
  noThreeWithinWindow
    (admittedTimes times
       (runCalls SlidingWindow.slidingWindowLogRateLimiter clients
          (callsAt req times)).2).
Proof.
  intros Hkey Hnew Hnd.
  apply (sliding_rate_gen req c Hkey times clients [] [] t0).
  - by rewrite Hnew.
  - simpl. lia.
  - constructor.
  - constructor.
  - constructor.
  - intros i a b Ha. done.
  - exact Hnd.
Qed.

Lemma sliding_window_rate_witness :
  noThreeWithinWindow
    (admittedTimes [0; 10; 20; 5001; 5011; 5021; 10002]
       (runCalls SlidingWindow.slidingWindowLogRateLimiter ∅
          (callsAt (mkRequest (Some "C"%string) None)
             [0; 10; 20; 5001; 5011; 5021; 10002])).2) ∧
  admittedTimes [0; 10; 20; 5001; 5011; 5021; 10002]
    (runCalls SlidingWindow.slidingWindowLogRateLimiter ∅
       (callsAt (mkRequest (Some "C"%string) None)
          [0; 10; 20; 5001; 5011; 5021; 10002])).2
  = [0; 10; 5001; 5011; 10002].
Proof.
  split; [| vm_compute; reflexivity].
  apply (sliding_window_rate ∅ (mkRequest (Some "C"%string) None) "C"%string 0);
    [reflexivity | apply lookup_empty | simpl; lia].
Defined.

(** ** Leaky bucket and token bucket over time *)

Section BucketsOverTime.

Lemma leaky_first clients req c now :
  clientKey req = Some c → clients !! c = None →
  LeakyBucket.leakyBucketRateLimiter clients req now
  = (<[c := LeakyBucket.mkBucket 1 now]> clients, Next).
Proof.
  intros Hkey Hnew. unfold LeakyBucket.leakyBucketRateLimiter.
  rewrite Hkey, Hnew. simpl. unfold LeakyBucket.leakedSince.
  by rewrite Z.sub_diag.
Qed.

(** A call [ms] milliseconds after the last one, on a stored bucket. *)
Lemma leaky_call_admit clients req c q last ms q' :
  clientKey req = Some c →
  Z.max 0 (q - ms / 1000) = q' → q' < 5 →
  LeakyBucket.leakyBucketRateLimiter
    (<[c := LeakyBucket.mkBucket q last]> clients) req (last + ms)
  = (<[c := LeakyBucket.mkBucket (q' + 1) (last + ms)]> clients, Next).
Proof.
  intros Hkey Hq Hlt.
  rewrite (leaky_step req c Hkey _ _ (LeakyBucket.mkBucket q last))
    by apply lookup_insert_eq.
  simpl. unfold LeakyBucket.leakedSince, LeakyBucket.LEAK_RATE.
  replace ((last + ms - last) * 1) with ms by lia. rewrite Hq.
  destruct (Z.ltb_spec q' 5); [| lia]. by rewrite insert_insert_eq.
Qed.

Lemma leaky_call_deny clients req c q last ms q' :
  clientKey req = Some c →
  Z.max 0 (q - ms / 1000) = q' → 5 ≤ q' →
  LeakyBucket.leakyBucketRateLimiter
    (<[c := LeakyBucket.mkBucket q last]> clients) req (last + ms)
  = (<[c := LeakyBucket.mkBucket q' (last + ms)]> clients,
     Json 429 "Rate limit exceeded").
Proof.
  intros Hkey Hq Hge.
  rewrite (leaky_step req c Hkey _ _ (LeakyBucket.mkBucket q last))
    by apply lookup_insert_eq.
  simpl. unfold LeakyBucket.leakedSince, LeakyBucket.LEAK_RATE.
  replace ((last + ms - last) * 1) with ms by lia. rewrite Hq.
  destruct (Z.ltb_spec q' 5); [lia |]. by rewrite insert_insert_eq.
Qed.

Lemma leaky_bounds_step s req now tl :
  tl ≤ now →
  map_Forall (λ _ b, 1 ≤ LeakyBucket.queue b ≤ 5
                     ∧ LeakyBucket.lastLeak b ≤ tl) s →
  map_Forall (λ _ b, 1 ≤ LeakyBucket.queue b ≤ 5
                     ∧ LeakyBucket.lastLeak b ≤ now)
    (LeakyBucket.leakyBucketRateLimiter s req now).1.
Proof.
  intros Htl Hs.
  assert (Hs' : map_Forall (λ _ b, 1 ≤ LeakyBucket.queue b ≤ 5
                                   ∧ LeakyBucket.lastLeak b ≤ now) s).
  { eapply map_Forall_impl; [exact Hs |]. simpl. intros; lia. }
  rewrite leaky_keyed. unfold keyed.
  destruct (clientKey req) as [k |]; [| done].
  assert (Hleak : 0 ≤ LeakyBucket.leakedSince now
                        (LeakyBucket.lastLeak
                           (default (LeakyBucket.mkBucket 0 now) (s !! k)))).
  { unfold LeakyBucket.leakedSince, LeakyBucket.LEAK_RATE.
    apply Z.div_pos; [| lia].
    destruct (s !! k) as [b |] eqn:E; simpl; [| lia].
    apply Hs in E. lia. }
  assert (Hq : 0 ≤ LeakyBucket.queue
                     (default (LeakyBucket.mkBucket 0 now) (s !! k)) ≤ 5).
  { destruct (s !! k) as [b |] eqn:E; simpl; [| lia]. apply Hs in E. lia. }
  unfold leakyStep. cbv zeta.
  destruct (Z.ltb_spec
              (Z.max 0 (LeakyBucket.queue
                          (default (LeakyBucket.mkBucket 0 now) (s !! k))
                        - LeakyBucket.leakedSince now
                            (LeakyBucket.lastLeak
                               (default (LeakyBucket.mkBucket 0 now) (s !! k)))))
              5);
    simpl; (apply map_Forall_insert_2; [simpl; lia | done]).
Qed.

Lemma leaky_bounds_run calls : ∀ s tl,
  nondecreasing tl calls.*2 →
  map_Forall (λ _ b, 1 ≤ LeakyBucket.queue b ≤ 5
                     ∧ LeakyBucket.lastLeak b ≤ tl) s →
  map_Forall (λ _ b, 1 ≤ LeakyBucket.queue b ≤ 5
                     ∧ LeakyBucket.lastLeak b ≤ List.last calls.*2 tl)
    (runCalls LeakyBucket.leakyBucketRateLimiter s calls).1.
Proof.
  induction calls as [| [req now] calls IH]; intros s tl Hnd Hs; [done |].
  destruct Hnd as [Htl Hnd]. cbn [runCalls fmap list_fmap snd].
  pose proof (leaky_bounds_step s req now tl Htl Hs) as Hstep.
  destruct (LeakyBucket.leakyBucketRateLimiter s req now) as [s1 r].
  specialize (IH s1 now Hnd Hstep).
  destruct (runCalls LeakyBucket.leakyBucketRateLimiter s1 calls) as [s2 rs].
  simpl in IH |- *.
  replace (match calls.*2 with [] => now | _ :: _ => List.last calls.*2 tl end)
    with (List.last calls.*2 now); [done |].
  destruct (calls.*2) as [| x l]; [done |].
  by rewrite !last_cons_default.
Qed.

End BucketsOverTime.

(** X7.  Leaky bucket, invariant under a clock that never goes back.
    Starting from the empty map, after any sequence of calls of any
    clients whose clock readings never decrease, every stored bucket has a
    queue depth between 1 and 5 and a lastLeak no later than the last
    clock reading. *)
Theorem leaky_bucket_queue_bounds (calls : list (Request * Z)) (t0 : Z)
    (k : string) (b : LeakyBucket.Bucket) :
  nondecreasing t0 calls.*2 →
  (runCalls LeakyBucket.leakyBucketRateLimiter ∅ calls).1 !! k = Some b →
  1 ≤ LeakyBucket.queue b ≤ 5 ∧
  LeakyBucket.lastLeak b ≤ List.last calls.*2 t0.
Proof.
  intros Hnd Hk.
  exact (leaky_bounds_run calls ∅ t0 Hnd (map_Forall_empty _) k b Hk).
Qed.

Lemma leaky_bucket_queue_bounds_witness :
  1 ≤ LeakyBucket.queue (LeakyBucket.mkBucket 1 2500) ≤ 5 ∧
  LeakyBucket.lastLeak (LeakyBucket.mkBucket 1 2500) ≤ 2500.
Proof.
  apply (leaky_bucket_queue_bounds
           [(mkRequest (Some "C"%string) None, 0);
            (mkRequest (Some "C"%string) None, 100);
            (mkRequest (Some "C"%string) None, 2500)] 0 "C"%string).
  - simpl. lia.
  - vm_compute. reflexivity.
Defined.

(** X8.  Leaky bucket, a clock that goes back.  A call whose clock
    reading is a second or more before the lastLeak of a bucket at
    capacity is answered 429 and stores a queue depth above the capacity:
    a negative number of leaked requests is subtracted. *)
Theorem leaky_bucket_clock_back (clients : gmap string LeakyBucket.Bucket)
    (req : Request) (c : string) (b : LeakyBucket.Bucket) (now : Z) :
  clientKey req = Some c →
  clients !! c = Some b →
  5 ≤ LeakyBucket.queue b →
  now + 1000 ≤ LeakyBucket.lastLeak b →
  ∃ q, LeakyBucket.queue b < q ∧ 5 < q ∧
       LeakyBucket.leakyBucketRateLimiter clients req now
       = (<[c := LeakyBucket.mkBucket q now]> clients,
          Json 429 "Rate limit exceeded").
Proof.
  intros Hkey Hb Hfull Hback.
  rewrite (leaky_step req c Hkey _ _ b Hb). cbv zeta.
  assert (Hneg : LeakyBucket.leakedSince now (LeakyBucket.lastLeak b) ≤ -1).
  { unfold LeakyBucket.leakedSince, LeakyBucket.LEAK_RATE.
    rewrite Z.mul_1_r.
    assert ((now - LeakyBucket.lastLeak b) / 1000 < 0); [| lia].
    apply Z.div_lt_upper_bound; lia. }
  destruct (Z.ltb_spec
              (Z.max 0 (LeakyBucket.queue b
                        - LeakyBucket.leakedSince now (LeakyBucket.lastLeak b)))
              5); [lia |].
  eexists. split; [| split; [| reflexivity]]; lia.
Qed.

Lemma leaky_bucket_clock_back_witness :
  ∃ q, 5 < q ∧
       LeakyBucket.leakyBucketRateLimiter
         {["C"%string := LeakyBucket.mkBucket 5 9000]}
         (mkRequest (Some "C"%string) None) 7000
       = (<["C"%string := LeakyBucket.mkBucket q 7000]>
            {["C"%string := LeakyBucket.mkBucket 5 9000]},
          Json 429 "Rate limit exceeded").
Proof.
  destruct (leaky_bucket_clock_back
              {["C"%string := LeakyBucket.mkBucket 5 9000]}
              (mkRequest (Some "C"%string) None) "C"%string
              (LeakyBucket.mkBucket 5 9000) 7000)
    as (q & _ & Hq & Hrun).
  - reflexivity.
  - apply lookup_singleton_eq.
  - simpl. lia.
  - simpl. lia.
  - exists q. split; [exact Hq | exact Hrun].
Defined.

(** X9.  Leaky bucket, the burst and the leak.  For a client never seen
    before, five calls at the same instant are admitted and a sixth is
    answered 429; 1000 ms later one request has leaked, so one call is
    admitted and the next is answered 429 again. *)
Theorem leaky_bucket_burst (clients : gmap string LeakyBucket.Bucket)
    (req : Request) (c : string) (t0 : Z) :
  clientKey req = Some c →
  clients !! c = None →
  runCalls LeakyBucket.leakyBucketRateLimiter clients
    (callsAt req (replicate 6 t0 ++ replicate 2 (t0 + 1000)))
  = (<[c := LeakyBucket.mkBucket 5 (t0 + 1000)]> clients,
     replicate 5 Next ++ [Json 429 "Rate limit exceeded"; Next;
                          Json 429 "Rate limit exceeded"]).
Proof.
  intros Hkey Hnew.
  assert (Hsame : ∀ q, q < 5 → 0 ≤ q →
            LeakyBucket.leakyBucketRateLimiter
              (<[c := LeakyBucket.mkBucket q t0]> clients) req t0
            = (<[c := LeakyBucket.mkBucket (q + 1) t0]> clients, Next)).
  { intros q Hq H0.
    pose proof (leaky_call_admit clients req c q t0 0 q Hkey) as H.
    rewrite Z.add_0_r in H. apply H; [| done].
    change (0 / 1000) with 0. lia. }
  assert (H6 : LeakyBucket.leakyBucketRateLimiter
                 (<[c := LeakyBucket.mkBucket 5 t0]> clients) req t0
               = (<[c := LeakyBucket.mkBucket 5 t0]> clients,
                  Json 429 "Rate limit exceeded")).
  { pose proof (leaky_call_deny clients req c 5 t0 0 5 Hkey) as H.
    rewrite Z.add_0_r in H. apply H; [reflexivity | lia]. }
  assert (H7 : LeakyBucket.leakyBucketRateLimiter
                 (<[c := LeakyBucket.mkBucket 5 t0]> clients) req (t0 + 1000)
               = (<[c := LeakyBucket.mkBucket 5 (t0 + 1000)]> clients, Next)).
  { apply (leaky_call_admit clients req c 5 t0 1000 4 Hkey); [reflexivity | lia]. }
  assert (H8 : LeakyBucket.leakyBucketRateLimiter
                 (<[c := LeakyBucket.mkBucket 5 (t0 + 1000)]> clients) req
                 (t0 + 1000)
               = (<[c := LeakyBucket.mkBucket 5 (t0 + 1000)]> clients,
                  Json 429 "Rate limit exceeded")).
  { pose proof (leaky_call_deny clients req c 5 (t0 + 1000) 0 5 Hkey) as H.
    rewrite Z.add_0_r in H. apply H; [reflexivity | lia]. }
  cbn [callsAt replicate app fmap list_fmap runCalls].
  rewrite (leaky_first clients req c t0 Hkey Hnew).
  rewrite (Hsame 1) by lia. change (1 + 1) with 2.
  rewrite (Hsame 2) by lia. change (2 + 1) with 3.
  rewrite (Hsame 3) by lia. change (3 + 1) with 4.
  rewrite (Hsame 4) by lia. change (4 + 1) with 5.
  rewrite H6, H7, H8. done.
Qed.

Lemma leaky_bucket_burst_witness :
  runCalls LeakyBucket.leakyBucketRateLimiter ∅
    (callsAt (mkRequest (Some "C"%string) None)
       (replicate 6 0 ++ replicate 2 (0 + 1000)))
  = ({["C"%string := LeakyBucket.mkBucket 5 (0 + 1000)]},
     replicate 5 Next ++ [Json 429 "Rate limit exceeded"; Next;
                          Json 429 "Rate limit exceeded"]).
Proof.
  rewrite (leaky_bucket_burst ∅ (mkRequest (Some "C"%string) None) "C"%string
             0 eq_refl (lookup_empty _)).
  by rewrite insert_empty.
Defined.

(** X10.  Token bucket, refill over time.  For a client never seen
    before, after five admitted calls at the same instant a call 1000 ms
    later is answered 429 but keeps the half token it refilled, so a call
    another 1000 ms later is admitted; and an idle time of 100 s refills
    the bucket to 5 tokens only, the call after it leaving 4. *)
Theorem token_bucket_refill (clients : gmap string TokenBucket.Bucket)
    (req : Request) (c : string) (t0 : Z) :
  clientKey req = Some c →
  clients !! c = None →
  runCalls TokenBucket.tokenBucketRateLimiter clients
    (callsAt req (replicate 5 t0 ++ [t0 + 1000]))
  = (<[c := TokenBucket.mkBucket 0.5 (t0 + 1000)]> clients,
     replicate 5 Next ++ [Json 429 "Rate limit exceeded"]) ∧
  runCalls TokenBucket.tokenBucketRateLimiter clients
    (callsAt req (replicate 5 t0
                  ++ [t0 + 1000; t0 + 1000 + 1000; t0 + 1000 + 1000 + 100000]))
  = (<[c := TokenBucket.mkBucket 4 (t0 + 1000 + 1000 + 100000)]> clients,
     replicate 5 Next ++ [Json 429 "Rate limit exceeded"; Next; Next]).
Proof.
  intros Hkey Hnew.
  assert (H1 : TokenBucket.tokenBucketRateLimiter clients req t0
               = (<[c := TokenBucket.mkBucket 4 t0]> clients, Next)).
  { rewrite (token_admit req c Hkey); rewrite Hnew; simpl;
      unfold TokenBucket.refilled; simpl; rewrite Z.sub_diag; done. }
  assert (Hsame : ∀ tok tok' : float,
             TokenBucket.refillBy tok 0 = tok' →
             PrimFloat.leb 1 tok' = true →
             TokenBucket.tokenBucketRateLimiter
               (<[c := TokenBucket.mkBucket tok t0]> clients) req t0
             = (<[c := TokenBucket.mkBucket (PrimFloat.sub tok' 1) t0]> clients,
                Next)).
  { intros tok tok' Hr Hle.
    pose proof (token_call_admit req c Hkey clients tok t0 0 tok' Hr Hle) as H.
    by rewrite Z.add_0_r in H. }
  assert (Hfive : runCalls TokenBucket.tokenBucketRateLimiter clients
                    (callsAt req (replicate 5 t0))
                  = (<[c := TokenBucket.mkBucket 0 t0]> clients,
                     replicate 5 Next)).
  { cbn [callsAt replicate fmap list_fmap runCalls]. rewrite H1.
    rewrite (Hsame 4%float 4%float eq_refl eq_refl).
    change (PrimFloat.sub 4 1) with 3%float.
    rewrite (Hsame 3%float 3%float eq_refl eq_refl).
    change (PrimFloat.sub 3 1) with 2%float.
    rewrite (Hsame 2%float 2%float eq_refl eq_refl).
    change (PrimFloat.sub 2 1) with 1%float.
    rewrite (Hsame 1%float 1%float eq_refl eq_refl).
    change (PrimFloat.sub 1 1) with 0%float. done. }
  pose proof (token_call_deny req c Hkey clients 0 t0 1000 0.5 eq_refl eq_refl)
    as H6.
  pose proof (token_call_admit req c Hkey clients 0.5 (t0 + 1000) 1000 1
                eq_refl eq_refl) as H7.
  change (PrimFloat.sub 1 1) with 0%float in H7.
  pose proof (token_call_admit req c Hkey clients 0 (t0 + 1000 + 1000) 100000 5
                eq_refl eq_refl) as H8.
  change (PrimFloat.sub 5 1) with 4%float in H8.
  unfold callsAt. rewrite !fmap_app, !runCalls_app.
  fold (callsAt req (replicate 5 t0)). rewrite Hfive.
  cbn [fst snd fmap list_fmap runCalls].
  rewrite H6, H7, H8. done.
Qed.

Lemma token_bucket_refill_witness :
  runCalls TokenBucket.tokenBucketRateLimiter ∅
    (callsAt (mkRequest (Some "C"%string) None)
       (replicate 5 0 ++ [0 + 1000; 0 + 1000 + 1000; 0 + 1000 + 1000 + 100000]))
  = ({["C"%string := TokenBucket.mkBucket 4 (0 + 1000 + 1000 + 100000)]},
     replicate 5 Next ++ [Json 429 "Rate limit exceeded"; Next; Next]).
Proof.
  destruct (token_bucket_refill ∅ (mkRequest (Some "C"%string) None)
              "C"%string 0 eq_refl (lookup_empty _)) as [_ H].
  rewrite H. by rewrite insert_empty.
Defined.

(** * Further properties of the load balancer *)

Section RoundRobinOrder.
Import LoadBalancer.

Lemma rr_selections servers ws calls : ∀ idx,
  (0 < length servers)%nat →
  length (selections (mkLB servers ws (StRoundRobin idx)) calls) = length calls ∧
  ∀ i, (i < length calls)%nat →
    selections (mkLB servers ws (StRoundRobin idx)) calls !! i
    = servers !! ((idx + i) mod length servers)%nat.
Proof.
  induction calls as [| [req rnd] calls IH]; intros idx Hn.
  - split; [done |]. simpl. intros; lia.
  - cbn [selections]. unfold pickTarget. cbn [state LoadBalancer.servers LoadBalancer.ws].
    destruct (lookup_lt_is_Some_2 servers (idx mod length servers)) as [t Ht].
    { apply Nat.mod_upper_bound. lia. }
    rewrite Ht. cbn [mbind option_bind].
    destruct (IH ((idx + 1) mod length servers)%nat Hn) as [Hlen Hsel].
    split; [simpl; by rewrite Hlen |].
    intros [| i] Hi.
    + simpl. by rewrite Nat.add_0_r.
    + simpl in Hi. simpl lookup. rewrite Hsel by lia.
      rewrite Nat.Div0.add_mod_idemp_l. f_equal. f_equal. lia.
Qed.

Lemma addWeights_lookup n ws current :
  length current = n →
  ∀ m, (m ≤ n)%nat →
    let r := foldl (λ '(current, total) i,
                      (<[i := cell current i + weightAt ws i]> current,
                       total + weightAt ws i))
                   (current, 0) (seq 0 m) in
    length r.1 = n ∧
    (∀ i, r.1 !! i = if (i <? m)%nat
                     then (λ c, c + weightAt ws i) <$> current !! i
                     else current !! i) ∧
    r.2 = sumZ ((λ i, weightAt ws i) <$> seq 0 m).
Proof.
  intros Hlen. induction m as [| m IH]; intros Hm; cbv zeta.
  - simpl. split; [done |]. split; [| done]. intros i. done.
  - rewrite seq_S, foldl_snoc. cbv zeta in IH.
    destruct IH as (Hl & Hlk & Htot); [lia |].
    destruct (foldl _ _ _) as [cur tot]. simpl in Hl, Hlk, Htot |- *.
    split; [by rewrite length_insert |]. split.
    + intros i. rewrite list_lookup_insert. case_decide as Hi.
      * destruct Hi as [<- Hi]. rewrite (proj2 (Nat.ltb_lt m (S m))) by lia.
        unfold cell. rewrite Hlk, Nat.ltb_irrefl.
        destruct (lookup_lt_is_Some_2 current m) as [c ->]; [lia |]. done.
      * rewrite Hlk.
        destruct (Nat.ltb_spec i m), (Nat.ltb_spec i (S m)); try done; lia.
    + rewrite fmap_app. unfold sumZ in *. rewrite foldr_app. simpl.
      rewrite Htot. clear.
      generalize ((λ i, weightAt ws i) <$> seq 0 m). intros l.
      generalize (weightAt ws m). intros w.
      induction l as [| x l IHl]; simpl; [lia |]. rewrite <- IHl. lia.
Qed.

Lemma sumZ_app l1 l2 : sumZ (l1 ++ l2) = sumZ l1 + sumZ l2.
Proof. unfold sumZ. induction l1 as [| x l1 IH]; simpl; [done |]. rewrite IH. lia. Qed.

Lemma weights_list ws n :
  length ws = n → (λ i, weightAt ws i) <$> seq 0 n = ws.
Proof.
  intros Hlen. apply list_eq. intros i. rewrite list_lookup_fmap.
  destruct (decide (i < n)%nat) as [Hi | Hi].
  - rewrite (proj2 (lookup_seq 0 n i i)) by done. simpl. unfold weightAt.
    destruct (lookup_lt_is_Some_2 ws i) as [w ->]; [lia | done].
  - rewrite (lookup_ge_None_2 (seq 0 n)) by (rewrite length_seq; lia).
    rewrite lookup_ge_None_2 by lia. done.
Qed.

(** The first loop adds each weight to its counter and sums the weights. *)
Lemma addWeights_spec n ws current :
  length current = n → length ws = n →
  addWeights n ws current = (zip_with Z.add current ws, sumZ ws).
Proof.
  intros Hc Hw. unfold addWeights.
  destruct (addWeights_lookup n ws current Hc n (le_n _)) as (Hl & Hlk & Htot).
  destruct (foldl _ _ _) as [cur tot]. simpl in *.
  f_equal; [| by rewrite Htot, weights_list].
  apply list_eq. intros i. rewrite Hlk, lookup_zip_with.
  destruct (Nat.ltb_spec i n) as [Hi | Hi].
  - destruct (lookup_lt_is_Some_2 current i) as [c ->]; [lia |].
    unfold weightAt.
    destruct (lookup_lt_is_Some_2 ws i) as [w ->]; [lia |]. done.
  - by rewrite (lookup_ge_None_2 current) by lia.
Qed.

(** The second loop returns [k] when [k] is the first index holding the
    maximum. *)
Lemma pickBest_is n current k :
  (k < n)%nat →
  (∀ i, (i < n)%nat → cell current i ≤ cell current k) →
  (∀ i, (i < k)%nat → cell current i < cell current k) →
  pickBest n current = k.
Proof.
  intros Hk Hmax Hfirst.
  destruct (pickBest_max current n) as [Hb Hbest]. cbv zeta in Hb, Hbest.
  set (best := pickBest n current) in *.
  assert (Hbn : (best < n)%nat) by lia.
  destruct (Hbest k Hk) as [Hle Hlt].
  pose proof (Hmax best Hbn).
  destruct (decide (best < k)%nat) as [H1 | H1].
  - specialize (Hfirst best H1). lia.
  - destruct (decide (k < best)%nat) as [H2 | H2]; [| lia].
    specialize (Hlt H2). lia.
Qed.






End RoundRobinOrder.

(** X11.  Round robin.  A round-robin balancer over a non-empty list, or
    the fallback built for an unrecognised strategy, gives the i-th
    selection (counting from 0) to the backend at index i mod
    servers.length, whatever the requests are. *)
Theorem round_robin_order (strategy : LoadBalancer.Strategy)
    (servers : list string) (weights : option (list Z))
    (lb0 : LoadBalancer.LoadBalancer) (calls : list (Request * Q)) :
  strategy = LoadBalancer.round_robin ∨ strategy = LoadBalancer.unrecognized →
  LoadBalancer.createLoadBalancer strategy servers weights = Some lb0 →
  length (selections lb0 calls) = length calls ∧
  ∀ i, (i < length calls)%nat →
    selections lb0 calls !! i = servers !! (i mod length servers)%nat.
Proof.
  intros Hs Hc.
  destruct (create_nonempty _ _ _ _ Hc) as [Hn _].
  assert (lb0 = LoadBalancer.mkLB servers
                  (LoadBalancer.weightsOrOnes servers weights)
                  (LoadBalancer.StRoundRobin 0)) as ->.
  { revert Hc. unfold LoadBalancer.createLoadBalancer.
    case_bool_decide; [done |]. by destruct Hs as [-> | ->]; intros [= <-]. }
  apply rr_selections. done.
Qed.

Lemma round_robin_order_witness :
  selections
    (LoadBalancer.mkLB ["A"; "B"; "C"]%string [1; 1; 1]
       (LoadBalancer.StRoundRobin 0))
    (replicate 5 (mkRequest None None, 0%Q)) !! 4%nat
  = Some "B"%string.
Proof.
  destruct (round_robin_order LoadBalancer.unrecognized ["A"; "B"; "C"]%string
              None
              (LoadBalancer.mkLB ["A"; "B"; "C"]%string [1; 1; 1]
                 (LoadBalancer.StRoundRobin 0))
              (replicate 5 (mkRequest None None, 0%Q)))
    as [_ H]; [by right | reflexivity |].
  rewrite (H 4%nat); [reflexivity | simpl; lia].
Defined.



Section EqualWeights.
Import LoadBalancer.






End EqualWeights.



Section LeastConnections.
Import LoadBalancer.

(** The scan keeps the first backend holding the least count. *)
Lemma scanLeast_gen (counts : gmap string Z) (l : list string) : ∀ b c,
  c = default 0 (counts !! b) →
  let r := foldl (λ '(best, bestCount) s,
                    let c := default 0 (counts !! s) in
                    if c <? bestCount then (s, c) else (best, bestCount))
                 (b, c) l in
  r.2 = default 0 (counts !! r.1) ∧
  (∀ s, s ∈ l → r.2 ≤ default 0 (counts !! s)) ∧
  ((r.1 = b ∧ r.2 = c) ∨
   (∃ i, l !! i = Some r.1 ∧ r.2 < c ∧
         ∀ j s, (j < i)%nat → l !! j = Some s → r.2 < default 0 (counts !! s))).
Proof.
  induction l as [| x l IH]; intros b c Hc; cbv zeta.
  - simpl. split; [done |]. split; [by intros s ?%elem_of_nil |]. by left.
  - cbn [foldl]. cbv zeta.
    destruct (Z.ltb_spec (default 0 (counts !! x)) c) as [Hlt | Hge].
    + specialize (IH x (default 0 (counts !! x)) eq_refl). cbv zeta in IH.
      destruct IH as (Hr & Hall & Hcase).
      set (r := foldl _ _ l) in *.
      assert (Hle : r.2 ≤ default 0 (counts !! x)).
      { destruct Hcase as [[_ ->] | (i & _ & Hi & _)]; lia. }
      split; [done |]. split.
      { intros s [-> | Hs]%elem_of_cons; [done | by apply Hall]. }
      right. destruct Hcase as [[H1 H2] | (i & Hi & Hci & Hbefore)].
      * exists 0%nat. simpl. rewrite H1. split; [done |].
        split; [lia |]. intros; lia.
      * exists (S i). simpl. split; [done |]. split; [lia |].
        intros [| j] s Hj Hs; simpl in Hs.
        -- injection Hs as <-. done.
        -- apply (Hbefore j); [lia | done].
    + specialize (IH b c Hc). cbv zeta in IH.
      destruct IH as (Hr & Hall & Hcase).
      set (r := foldl _ _ l) in *.
      assert (Hle : r.2 ≤ c).
      { destruct Hcase as [[_ ->] | (i & _ & Hi & _)]; lia. }
      split; [done |]. split.
      { intros s [-> | Hs]%elem_of_cons; [lia | by apply Hall]. }
      destruct Hcase as [Hsame | (i & Hi & Hci & Hbefore)]; [by left |].
      right. exists (S i). simpl. split; [done |]. split; [done |].
      intros [| j] s Hj Hs; simpl in Hs.
      * injection Hs as <-. lia.
      * apply (Hbefore j); [lia | done].
Qed.

Lemma scanLeast_first counts servers best0 :
  servers !! 0%nat = Some best0 →
  ∃ i, servers !! i = Some (scanLeast counts servers best0).1 ∧
       (∀ s, s ∈ servers →
          default 0 (counts !! (scanLeast counts servers best0).1)
          ≤ default 0 (counts !! s)) ∧
       (∀ j s, (j < i)%nat → servers !! j = Some s →
          default 0 (counts !! (scanLeast counts servers best0).1)
          < default 0 (counts !! s)).
Proof.
  intros H0. unfold scanLeast.
  destruct (scanLeast_gen counts servers best0 _ eq_refl) as (Hr & Hall & Hcase).
  cbv zeta in Hr, Hall, Hcase. set (r := foldl _ _ servers) in *.
  rewrite <- Hr.
  destruct Hcase as [[H1 H2] | (i & Hi & Hci & Hbefore)].
  - exists 0%nat. rewrite H1. split; [done |]. split; [done |]. intros; lia.
  - exists i. done.
Qed.

Lemma lc_pick lb counts req rnd t lb1 :
  state lb = StLeastConnections counts →
  pickTarget lb req rnd = Some (t, lb1) →
  lb1 = mkLB (servers lb) (ws lb)
          (StLeastConnections (<[t := default 0 (counts !! t) + 1]> counts)) ∧
  ∃ i, servers lb !! i = Some t ∧
       (∀ s, s ∈ servers lb →
          default 0 (counts !! t) ≤ default 0 (counts !! s)) ∧
       (∀ j s, (j < i)%nat → servers lb !! j = Some s →
          default 0 (counts !! t) < default 0 (counts !! s)).
Proof.
  intros Hst. unfold pickTarget. rewrite Hst.
  destruct (servers lb !! 0%nat) as [best0 |] eqn:H0; [| done]. simpl.
  pose proof (scanLeast_first counts (servers lb) best0 H0) as Hfirst.
  destruct (scanLeast counts (servers lb) best0) as [best bc].
  intros [= <- <-]. done.
Qed.

(** States reached by selections only keep the counts within 1 of each
    other. *)
Lemma lc_balanced servers weights lb0 calls :
  createLoadBalancer least_connections servers weights = Some lb0 →
  LoadBalancer.servers (stateAfter lb0 calls) = servers ∧
  (∃ counts, state (stateAfter lb0 calls) = StLeastConnections counts) ∧
  ∀ s s', s ∈ servers → s' ∈ servers →
    activeCount (stateAfter lb0 calls) s
    ≤ activeCount (stateAfter lb0 calls) s' + 1.
Proof.
  intros Hc. induction calls as [| [req rnd] calls IH] using rev_ind.
  - simpl. destruct (create_tracks _ _ _ _ (or_introl eq_refl) Hc) as [_ Hz].
    destruct (create_nonempty _ _ _ _ Hc) as [_ Hs].
    split; [done |]. split.
    { revert Hc. unfold createLoadBalancer. case_bool_decide; [done |].
      intros [= <-]. eauto. }
    intros s s' _ _. unfold activeCount.
    assert (Hzero : ∀ x, default 0 (countsOf lb0 !! x) = 0).
    { intros x. destruct (countsOf lb0 !! x) as [v |] eqn:E; [| done].
      by apply Hz in E. }
    rewrite !Hzero. lia.
  - destruct IH as (Hs & (counts & Hst) & Hbal).
    unfold stateAfter in *. rewrite foldl_snoc.
    set (lb := foldl _ lb0 calls) in *.
    destruct (pickTarget lb req rnd) as [[t lb1] |] eqn:Hp; [| eauto].
    destruct (lc_pick lb counts req rnd t lb1 Hst Hp)
      as (-> & i & Hi & Hmin & _).
    split; [done |]. split; [simpl; eauto |].
    assert (Hact : ∀ x, activeCount lb x = default 0 (counts !! x)).
    { intros x. unfold activeCount, countsOf. by rewrite Hst. }
    assert (Hnew : ∀ x,
              activeCount
                (mkLB (LoadBalancer.servers lb) (ws lb)
                   (StLeastConnections
                      (<[t := default 0 (counts !! t) + 1]> counts))) x
              = if decide (x = t) then activeCount lb t + 1
                else activeCount lb x).
    { intros x. unfold activeCount at 1. unfold countsOf. simpl.
      case_decide as Hx.
      - subst x. by rewrite lookup_insert_eq, Hact.
      - by rewrite lookup_insert_ne, Hact. }
    intros s s' Hin Hin'. rewrite !Hnew.
    rewrite Hs in Hmin.
    pose proof (Hmin s Hin) as H1. pose proof (Hmin s' Hin') as H2.
    rewrite <- !Hact in H1, H2.
    assert (Ht : t ∈ servers)
      by (rewrite <- Hs; by eapply list_elem_of_lookup_2).
    pose proof (Hbal s t Hin Ht). pose proof (Hbal s s' Hin Hin').
    repeat case_decide; lia.
Qed.

(** In every reachable state of a counting balancer each configured
    backend has an entry. *)
Lemma reachable_entries strategy servers weights lb0 lb :
  strategy = least_connections ∨ strategy = weighted_least_connections →
  createLoadBalancer strategy servers weights = Some lb0 →
  reachable lb0 lb →
  ∀ s, s ∈ servers → is_Some (countsOf lb !! s).
Proof.
  intros Hs Hc Hr. induction Hr as [| lb req rnd t lb1 Hr IH H0 H1 Hp
                                     | lb target Hr IH].
  - assert (Hf : ∀ l (m : gmap string Z) s,
               s ∈ l ∨ is_Some (m !! s) →
               is_Some (foldl (λ counts s, <[s := 0]> counts) m l !! s)).
    { induction l as [| x l IHl]; intros m s Hin; simpl.
      - destruct Hin as [?%elem_of_nil | ?]; done.
      - apply IHl. destruct Hin as [[-> | Hin]%elem_of_cons | Hin].
        + right. rewrite lookup_insert_eq. eauto.
        + by left.
        + right. destruct (decide (x = s)) as [-> | Hne].
          * rewrite lookup_insert_eq. eauto.
          * by rewrite lookup_insert_ne. }
    revert Hc. unfold createLoadBalancer. case_bool_decide; [done |].
    intros [= <-] s Hin. unfold countsOf.
    destruct Hs as [-> | ->]; simpl; apply Hf; by left.
  - destruct (reachable_counts _ _ _ _ _ Hs Hc Hr) as [Ht _].
    destruct (pick_counts _ _ _ _ _ Ht Hp) as [_ ->].
    intros s Hin. destruct (decide (t = s)) as [-> | Hne].
    + rewrite lookup_insert_eq. eauto.
    + rewrite lookup_insert_ne by done. by apply IH.
  - destruct (reachable_counts _ _ _ _ _ Hs Hc Hr) as [Ht _].
    destruct (release_counts lb target Ht) as [_ ->].
    intros s Hin. unfold releaseCount.
    destruct (decide (target = s)) as [-> | Hne].
    + rewrite lookup_insert_eq. eauto.
    + rewrite lookup_insert_ne by done. by apply IH.
Qed.

End LeastConnections.

(** X14.  Least connections selects the first least-loaded backend.  A
    selection returns a backend of the list whose count is at most the
    count of every other backend of the list, and among those the one
    that comes first in the list; it adds 1 to that count and changes
    nothing else. *)
Theorem least_connections_first_min (lb lb1 : LoadBalancer.LoadBalancer)
    (counts : gmap string Z) (req : Request) (rnd : Q) (t : string) :
  LoadBalancer.state lb = LoadBalancer.StLeastConnections counts →
  LoadBalancer.pickTarget lb req rnd = Some (t, lb1) →
  lb1 = LoadBalancer.mkLB (LoadBalancer.servers lb) (LoadBalancer.ws lb)
          (LoadBalancer.StLeastConnections
             (<[t := activeCount lb t + 1]> counts)) ∧
  ∃ i, LoadBalancer.servers lb !! i = Some t ∧
       (∀ s, s ∈ LoadBalancer.servers lb →
          activeCount lb t ≤ activeCount lb s) ∧
       (∀ j s, (j < i)%nat → LoadBalancer.servers lb !! j = Some s →
          activeCount lb t < activeCount lb s).
Proof.
  intros Hst Hp.
  assert (Hact : ∀ x, activeCount lb x = default 0 (counts !! x)).
  { intros x. unfold activeCount, countsOf. by rewrite Hst. }
  destruct (lc_pick lb counts req rnd t lb1 Hst Hp) as (-> & i & Hi & Hmin & Hfirst).
  split; [by rewrite Hact |].
  exists i. split; [done |]. split.
  - intros s Hs. rewrite !Hact. by apply Hmin.
  - intros j s Hj Hs. rewrite !Hact. by eapply Hfirst.
Qed.

Lemma least_connections_first_min_witness :
  ∃ i, ["A"; "B"; "C"; "D"]%string !! i = Some "B"%string ∧
       (∀ j s, (j < i)%nat → ["A"; "B"; "C"; "D"]%string !! j = Some s →
          1 < default 0
                (({["A"%string := 3; "B"%string := 1; "C"%string := 2;
                    "D"%string := 1]} : gmap string Z) !! s)).
Proof.
  destruct (least_connections_first_min
              (LoadBalancer.mkLB ["A"; "B"; "C"; "D"]%string [1; 1; 1; 1]
                 (LoadBalancer.StLeastConnections
                    {["A"%string := 3; "B"%string := 1; "C"%string := 2;
                      "D"%string := 1]}))
              (LoadBalancer.mkLB ["A"; "B"; "C"; "D"]%string [1; 1; 1; 1]
                 (LoadBalancer.StLeastConnections
                    (<["B"%string := 2]>
                       {["A"%string := 3; "B"%string := 1; "C"%string := 2;
                         "D"%string := 1]})))
              {["A"%string := 3; "B"%string := 1; "C"%string := 2;
                "D"%string := 1]}
              (mkRequest None None) 0%Q "B"%string)
    as (_ & i & Hi & _ & Hfirst).
  - reflexivity.
  - vm_compute. reflexivity.
  - exists i. split; [exact Hi |]. exact Hfirst.
Defined.

(** X15.  Least connections balances.  From a freshly built balancer,
    after any number of selections without a release in between, the
    active counts of any two configured backends differ by at most 1. *)
Theorem least_connections_balanced (servers : list string)
    (weights : option (list Z)) (lb0 : LoadBalancer.LoadBalancer)
    (calls : list (Request * Q)) (s s' : string) :
  LoadBalancer.createLoadBalancer LoadBalancer.least_connections
    servers weights = Some lb0 →
  s ∈ servers → s' ∈ servers →
  activeCount (stateAfter lb0 calls) s
  ≤ activeCount (stateAfter lb0 calls) s' + 1.
Proof.
  intros Hc Hs Hs'.
  destruct (lc_balanced servers weights lb0 calls Hc) as (_ & _ & H).
  by apply H.
Qed.

Lemma least_connections_balanced_witness :
  activeCount
    (stateAfter
       (LoadBalancer.mkLB ["A"; "B"; "C"]%string [1; 1; 1]
          (LoadBalancer.StLeastConnections
             (<["C"%string := 0]> (<["B"%string := 0]>
                (<["A"%string := 0]> ∅)))))
       (replicate 4 (mkRequest None None, 0%Q))) "A"
  ≤ activeCount
      (stateAfter
         (LoadBalancer.mkLB ["A"; "B"; "C"]%string [1; 1; 1]
            (LoadBalancer.StLeastConnections
               (<["C"%string := 0]> (<["B"%string := 0]>
                  (<["A"%string := 0]> ∅)))))
         (replicate 4 (mkRequest None None, 0%Q))) "C" + 1.
Proof.
  apply (least_connections_balanced ["A"; "B"; "C"]%string None).
  - reflexivity.
  - apply elem_of_cons. by left.
  - apply elem_of_cons. right. apply elem_of_cons. right.
    apply elem_of_cons. by left.
Defined.

(** X16.  Select then release is the identity.  In every state of a
    least-connections or weighted-least-connections balancer reachable
    by selections and releases, releasing the backend a selection has
    just returned gives back the balancer as it was before the
    selection. *)
Theorem select_release_round_trip (strategy : LoadBalancer.Strategy)
    (servers : list string) (weights : option (list Z))
    (lb0 lb lb1 : LoadBalancer.LoadBalancer)
    (req : Request) (rnd : Q) (t : string) :
  strategy = LoadBalancer.least_connections
  ∨ strategy = LoadBalancer.weighted_least_connections →
  LoadBalancer.createLoadBalancer strategy servers weights = Some lb0 →
  reachable lb0 lb →
  LoadBalancer.pickTarget lb req rnd = Some (t, lb1) →
  LoadBalancer.release lb1 t = lb.
Proof.
  intros Hs Hc Hr Hp.
  destruct (reachable_counts _ _ _ _ _ Hs Hc Hr) as [Ht Hnn].
  pose proof (reachable_entries _ _ _ _ _ Hs Hc Hr) as Hdom.
  destruct (reachable_wellFormed _ _ _ _ _ Hc Hr) as [Hsv _].
  assert (Hin : t ∈ servers).
  { revert Hp. unfold LoadBalancer.pickTarget. unfold tracks in Ht.
    destruct (LoadBalancer.state lb) as [| | | counts | counts | |]; try done.
    - destruct (LoadBalancer.servers lb !! 0%nat) as [b0 |] eqn:H0; [| done].
      simpl. pose proof (scanLeast_in counts (LoadBalancer.servers lb) b0) as Hi.
      destruct (LoadBalancer.scanLeast _ _ _) as [b bc]. intros [= <- _].
      rewrite <- Hsv. simpl in Hi.
      apply elem_of_cons in Hi as [-> | Hi]; [| done].
      by eapply list_elem_of_lookup_2.
    - destruct (LoadBalancer.servers lb !! 0%nat) as [b0 |] eqn:H0; [| done].
      simpl.
      pose proof (scanLeastWeighted_in counts (LoadBalancer.ws lb)
                    (LoadBalancer.servers lb) b0) as Hi.
      destruct (LoadBalancer.scanLeastWeighted _ _ _ _) as [b bc].
      intros [= <- _]. rewrite <- Hsv. simpl in Hi.
      apply elem_of_cons in Hi as [-> | Hi]; [| done].
      by eapply list_elem_of_lookup_2. }
  destruct (Hdom t Hin) as [c Hc'].
  pose proof (Hnn t c Hc') as Hc0. simpl in Hc0.
  revert Hp Hc'. unfold LoadBalancer.pickTarget, LoadBalancer.release, countsOf.
  unfold tracks in Ht. destruct lb as [sv w st]. simpl in *.
  destruct st as [| | | counts | counts | |]; try done.
  - destruct (sv !! 0%nat) as [b0 |]; [| done]. simpl.
    destruct (LoadBalancer.scanLeast _ _ _) as [b bc].
    intros [= -> <-] Hl. simpl. do 2 f_equal.
    unfold LoadBalancer.releaseCount. rewrite lookup_insert_eq, insert_insert_eq.
    rewrite Hl. simpl. replace (Z.max 0 (c + 1 - 1)) with c by lia.
    by apply insert_id.
  - destruct (sv !! 0%nat) as [b0 |]; [| done]. simpl.
    destruct (LoadBalancer.scanLeastWeighted _ _ _ _) as [b bc].
    intros [= -> <-] Hl. simpl. do 2 f_equal.
    unfold LoadBalancer.releaseCount. rewrite lookup_insert_eq, insert_insert_eq.
    rewrite Hl. simpl. replace (Z.max 0 (c + 1 - 1)) with c by lia.
    by apply insert_id.
Qed.

Lemma select_release_round_trip_witness :
  LoadBalancer.release
    (LoadBalancer.mkLB ["A"; "B"]%string [1; 1]
       (LoadBalancer.StLeastConnections
          (<["A"%string := 1]>
             (<["B"%string := 0]> (<["A"%string := 0]> ∅)))))
    "A"
  = LoadBalancer.mkLB ["A"; "B"]%string [1; 1]
      (LoadBalancer.StLeastConnections
         (<["B"%string := 0]> (<["A"%string := 0]> ∅))).
Proof.
  apply (select_release_round_trip LoadBalancer.least_connections
           ["A"; "B"]%string None
           (LoadBalancer.mkLB ["A"; "B"]%string [1; 1]
              (LoadBalancer.StLeastConnections
                 (<["B"%string := 0]> (<["A"%string := 0]> ∅))))
           (LoadBalancer.mkLB ["A"; "B"]%string [1; 1]
              (LoadBalancer.StLeastConnections
                 (<["B"%string := 0]> (<["A"%string := 0]> ∅))))
           _ (mkRequest None None) 0%Q).
  - by left.
  - reflexivity.
  - apply reach_init.
  - vm_compute. reflexivity.
Defined.

Section RingStability.
Import LoadBalancer.

Lemma filter_all {A} (P : A → Prop) `{∀ x, Decision (P x)} (l : list A) :
  Forall P l → filter P l = l.
Proof.
  induction 1 as [| x l Hx Hl IH]; [done |].
  by rewrite filter_cons_True, IH.
Qed.

Lemma filter_none {A} (P : A → Prop) `{∀ x, Decision (P x)} (l : list A) :
  Forall (λ x, ¬ P x) l → filter P l = [].
Proof.
  induction 1 as [| x l Hx Hl IH]; [done |].
  by rewrite filter_cons_False.
Qed.

(** The entries pushed for a list without backend [r] are the entries of
    the full list that do not belong to [r], in the same order. *)
Lemma ringEntries_filter r servers :
  ringEntries (filter (λ s, s ≠ r) servers)
  = filter (λ e, server e ≠ r) (ringEntries servers).
Proof.
  unfold ringEntries. induction servers as [| s l IH]; [done |].
  rewrite bind_cons, filter_app, <- IH.
  destruct (decide (s = r)) as [-> | Hne].
  - rewrite filter_cons_False by (intros H; by apply H).
    rewrite (filter_none (λ e, server e ≠ r)); [done |].
    apply Forall_forall. intros e (v & -> & _)%list_elem_of_fmap. simpl.
    intros H. by apply H.
  - rewrite filter_cons_True, bind_cons by done. f_equal.
    symmetry. apply (filter_all (λ e, server e ≠ r)).
    apply Forall_forall. by intros e (v & -> & _)%list_elem_of_fmap.
Qed.

Lemma insertByHash_head e l :
  Forall (λ x, hash e ≤ hash x) l → insertByHash e l = e :: l.
Proof.
  intros Hl. destruct l as [| x l]; [done |]. simpl.
  apply Forall_cons in Hl as [Hx _].
  destruct (Z.leb_spec (hash e) (hash x)); [done | lia].
Qed.

Lemma insertByHash_filter_in (P : RingEntry → Prop) `{∀ x, Decision (P x)}
    e l :
  ascending l → P e →
  filter P (insertByHash e l) = insertByHash e (filter P l).
Proof.
  unfold ascending. intros Hasc He. induction Hasc as [| x l Hasc IH Hx].
  - simpl. by rewrite filter_cons_True.
  - simpl. destruct (Z.leb_spec (hash e) (hash x)) as [Hle | Hgt].
    + rewrite filter_cons_True by done. symmetry. apply insertByHash_head.
      apply Forall_forall. intros y [_ Hy]%list_elem_of_filter.
      apply elem_of_cons in Hy as [-> | Hy]; [done |].
      eapply Forall_forall in Hx; [| exact Hy]. simpl in Hx. lia.
    + destruct (decide (P x)).
      * rewrite !filter_cons_True by done. simpl.
        destruct (Z.leb_spec (hash e) (hash x)); [lia |]. by rewrite IH.
      * rewrite !filter_cons_False by done. done.
Qed.

Lemma insertByHash_filter_out (P : RingEntry → Prop) `{∀ x, Decision (P x)}
    e l :
  ¬ P e → filter P (insertByHash e l) = filter P l.
Proof.
  intros He. induction l as [| x l IH]; simpl.
  - by rewrite filter_cons_False.
  - case_match.
    + by rewrite filter_cons_False.
    + destruct (decide (P x)).
      * by rewrite !filter_cons_True, IH.
      * by rewrite !filter_cons_False.
Qed.

(** Sorting the kept entries gives the kept entries of the sorted list. *)
Lemma sortByHash_filter (P : RingEntry → Prop) `{∀ x, Decision (P x)} l :
  sortByHash (filter P l) = filter P (sortByHash l).
Proof.
  induction l as [| e l IH]; [done |]. simpl.
  destruct (decide (P e)).
  - rewrite filter_cons_True by done. simpl. rewrite IH.
    symmetry. apply insertByHash_filter_in; [apply sortByHash_ascending | done].
  - rewrite filter_cons_False by done.
    by rewrite insertByHash_filter_out.
Qed.

Lemma buildRing_filter r servers :
  buildRing (filter (λ s, s ≠ r) servers)
  = filter (λ e, server e ≠ r) (buildRing servers).
Proof. unfold buildRing. by rewrite ringEntries_filter, sortByHash_filter. Qed.

Lemma list_find_filter {A} (P Q : A → Prop)
    `{∀ x, Decision (P x)} `{∀ x, Decision (Q x)} (l : list A) i x :
  list_find P l = Some (i, x) → Q x →
  ∃ j, list_find P (filter Q l) = Some (j, x).
Proof.
  revert i. induction l as [| y l IH]; intros i Hf Hq; [done |].
  destruct (decide (Q y)) as [Hy | Hy].
  - rewrite filter_cons_True by done. simpl in *.
    destruct (decide (P y)); [injection Hf as <- <-; eauto |].
    destruct (list_find P l) as [[i' x'] |] eqn:E; [| done].
    injection Hf as <- <-. destruct (IH i' eq_refl Hq) as [j ->].
    simpl. eauto.
  - rewrite filter_cons_False by done. simpl in Hf.
    destruct (decide (P y)); [injection Hf as <- <-; done |].
    destruct (list_find P l) as [[i' x'] |] eqn:E; [| done].
    injection Hf as <- <-. by apply (IH i').
Qed.

(** The reference lookup is not affected by removing the entries of
    another backend. *)
Lemma ringLookupRef_filter ring h r t :
  ringLookupRef ring h = Some t → t ≠ r →
  ringLookupRef (filter (λ e, server e ≠ r) ring) h = Some t.
Proof.
  unfold ringLookupRef. intros Hl Hne.
  destruct (list_find (λ e, h ≤ hash e) ring) as [[i e] |] eqn:E.
  - injection Hl as <-.
    destruct (list_find_filter _ (λ e, server e ≠ r) ring i e E Hne) as [j ->].
    done.
  - apply list_find_None in E.
    rewrite (proj2 (list_find_None (λ e, h ≤ hash e)
                      (filter (λ e, server e ≠ r) ring))).
    2:{ apply Forall_forall. intros y [_ Hy]%list_elem_of_filter.
        by eapply Forall_forall in E. }
    destruct ring as [| e ring]; [done |]. simpl in Hl. injection Hl as <-.
    by rewrite filter_cons_True.
Qed.

Lemma consistent_hash_removal_core servers r weights weights' lb lb'
    req rnd rnd' t :
  createLoadBalancer consistent_hash servers weights = Some lb →
  createLoadBalancer consistent_hash (filter (λ s, s ≠ r) servers) weights'
  = Some lb' →
  pickTarget lb req rnd = Some (t, lb) → t ≠ r →
  pickTarget lb' req rnd' = Some (t, lb').
Proof.
  intros Hc Hc' Hp Hne.
  destruct (consistent_hash_select_core servers weights lb Hc req rnd)
    as (e & _ & Href & Hpe).
  rewrite Hpe in Hp. injection Hp as Ht.
  destruct (consistent_hash_select_core _ weights' lb' Hc' req rnd')
    as (e' & _ & Href' & Hpe').
  rewrite Hpe'. do 2 f_equal.
  rewrite buildRing_filter in Href'.
  rewrite (ringLookupRef_filter _ _ r t) in Href'; [by injection Href' | | done].
  by rewrite Href, Ht.
Qed.

(** The binary search needs no more iterations than the binary logarithm
    of the range. *)
Lemma bsearch_log ring h : ∀ fuel lo hi,
  (lo ≤ hi)%nat → (hi < length ring)%nat → (hi - lo < 2 ^ fuel)%nat →
  ∃ k, bsearch fuel ring h lo hi = Some k ∧ (lo ≤ k ≤ hi)%nat.
Proof.
  induction fuel as [| fuel IH]; intros lo hi Hle Hhi Hf.
  - simpl in Hf. assert (lo = hi) as -> by lia.
    simpl. rewrite Nat.ltb_irrefl. eauto.
  - cbn [bsearch]. destruct (Nat.ltb_spec lo hi) as [Hlt | Hge].
    + assert (Hmid : (lo ≤ (lo + hi) / 2 < hi)%nat).
      { split.
        - apply Nat.div_le_lower_bound; lia.
        - apply Nat.Div0.div_lt_upper_bound; lia. }
      assert (Hhalf : (2 * ((lo + hi) / 2) ≤ lo + hi < 2 * ((lo + hi) / 2) + 2)%nat).
      { pose proof (Nat.div_mod (lo + hi) 2 ltac:(lia)).
        pose proof (Nat.mod_upper_bound (lo + hi) 2 ltac:(lia)). lia. }
      rewrite Nat.pow_succ_r' in Hf.
      destruct (lookup_lt_is_Some_2 ring ((lo + hi) / 2)) as [m Hm]; [lia |].
      rewrite Hm. cbn [mbind option_bind]. destruct (h <=? hash m).
      * destruct (IH lo ((lo + hi) / 2)%nat) as (k & -> & Hk); [lia .. |].
        exists k. split; [done | lia].
      * destruct (IH ((lo + hi) / 2 + 1)%nat hi) as (k & -> & Hk); [lia .. |].
        exists k. split; [done | lia].
    + assert (lo = hi) as -> by lia. eauto.
Qed.

End RingStability.

(** X17.  Consistent hash, removing a backend.  When a backend is removed
    from the list, every request that was routed to one of the remaining
    backends is still routed to the same backend by the balancer built
    over the shorter list: only the keys of the removed backend move. *)
Theorem consistent_hash_removal (servers : list string) (r : string)
    (weights weights' : option (list Z))
    (lb lb' : LoadBalancer.LoadBalancer)
    (req : Request) (rnd rnd' : Q) (t : string) :
  LoadBalancer.createLoadBalancer LoadBalancer.consistent_hash servers weights
  = Some lb →
  LoadBalancer.createLoadBalancer LoadBalancer.consistent_hash
    (filter (λ s, s ≠ r) servers) weights' = Some lb' →
  LoadBalancer.pickTarget lb req rnd = Some (t, lb) →
  t ≠ r →
  LoadBalancer.pickTarget lb' req rnd' = Some (t, lb').
Proof. apply consistent_hash_removal_core. Qed.

Lemma consistent_hash_removal_witness :
  LoadBalancer.pickTarget
    (LoadBalancer.mkLB ["http://localhost:3001"; "http://localhost:3002"]%string
       [1; 1]
       (LoadBalancer.StConsistentHash
          (LoadBalancer.buildRing
             ["http://localhost:3001"; "http://localhost:3002"]%string)))
    (mkRequest None None) 0%Q
  = Some ("http://localhost:3002"%string,
          LoadBalancer.mkLB
            ["http://localhost:3001"; "http://localhost:3002"]%string [1; 1]
            (LoadBalancer.StConsistentHash
               (LoadBalancer.buildRing
                  ["http://localhost:3001"; "http://localhost:3002"]%string))).
Proof.
  apply (consistent_hash_removal
           ["http://localhost:3001"; "http://localhost:3002";
            "http://localhost:3003"]%string
           "http://localhost:3003"%string None None
           (LoadBalancer.mkLB
              ["http://localhost:3001"; "http://localhost:3002";
               "http://localhost:3003"]%string [1; 1; 1]
              (LoadBalancer.StConsistentHash
                 (LoadBalancer.buildRing
                    ["http://localhost:3001"; "http://localhost:3002";
                     "http://localhost:3003"]%string)))
           _ (mkRequest None None) 0%Q 0%Q).
  - reflexivity.
  - reflexivity.
  - vm_compute. reflexivity.
  - discriminate.
Defined.

(** X18.  Consistent hash, adding a backend.  When the list of a second
    balancer is the list of the first with a new backend added (anywhere,
    any number of times), every request is routed by the second balancer
    either to the backend the first one routes it to or to the new
    backend. *)
Theorem consistent_hash_addition (servers servers' : list string)
    (new : string) (weights weights' : option (list Z))
    (lb lb' : LoadBalancer.LoadBalancer)
    (req : Request) (rnd rnd' : Q) (t t' : string) :
  filter (λ s, s ≠ new) servers' = servers →
  LoadBalancer.createLoadBalancer LoadBalancer.consistent_hash servers weights
  = Some lb →
  LoadBalancer.createLoadBalancer LoadBalancer.consistent_hash servers' weights'
  = Some lb' →
  LoadBalancer.pickTarget lb req rnd = Some (t, lb) →
  LoadBalancer.pickTarget lb' req rnd' = Some (t', lb') →
  t' = t ∨ t' = new.
Proof.
  intros Hf Hc Hc' Hp Hp'.
  destruct (decide (t' = new)) as [| Hne]; [by right |]. left.
  subst servers.
  pose proof (consistent_hash_removal_core servers' new weights' weights lb' lb
                req rnd' rnd t' Hc' Hc Hp' Hne) as H.
  rewrite H in Hp. by injection Hp.
Qed.

Lemma consistent_hash_addition_witness :
  "http://localhost:3002"%string = "http://localhost:3002"%string
  ∨ "http://localhost:3002"%string = "http://localhost:3003"%string.
Proof.
  apply (consistent_hash_addition
           ["http://localhost:3001"; "http://localhost:3002"]%string
           ["http://localhost:3001"; "http://localhost:3002";
            "http://localhost:3003"]%string
           "http://localhost:3003"%string None None
           (LoadBalancer.mkLB
              ["http://localhost:3001"; "http://localhost:3002"]%string [1; 1]
              (LoadBalancer.StConsistentHash
                 (LoadBalancer.buildRing
                    ["http://localhost:3001"; "http://localhost:3002"]%string)))
           (LoadBalancer.mkLB
              ["http://localhost:3001"; "http://localhost:3002";
               "http://localhost:3003"]%string [1; 1; 1]
              (LoadBalancer.StConsistentHash
                 (LoadBalancer.buildRing
                    ["http://localhost:3001"; "http://localhost:3002";
                     "http://localhost:3003"]%string)))
           (mkRequest None None) 0%Q 0%Q).
  - vm_compute. reflexivity.
  - reflexivity.
  - reflexivity.
  - vm_compute. reflexivity.
  - vm_compute. reflexivity.
Defined.

(** X19.  Ring search, number of iterations.  On a non-empty ring of at
    most 2^f entries the binary search loop ends within f iterations, for
    every hash, sorted ring or not, and returns an index of the ring; for
    the 300 entries of three backends, 9 iterations suffice. *)
Theorem ring_search_logarithmic (ring : list LoadBalancer.RingEntry)
    (h : Z) (f : nat) :
  (0 < length ring)%nat → (length ring ≤ 2 ^ f)%nat →
  ∃ k, LoadBalancer.bsearch f ring h 0 (length ring - 1) = Some k ∧
       (k < length ring)%nat.
Proof.
  intros Hn Hf.
  destruct (bsearch_log ring h f 0 (length ring - 1)) as (k & Hk & Hb);
    [lia .. |].
  exists k. split; [done | lia].
Qed.

Lemma ring_search_logarithmic_witness :
  ∃ k, LoadBalancer.bsearch 9
         (LoadBalancer.buildRing
            ["http://localhost:3001"; "http://localhost:3002";
             "http://localhost:3003"]%string)
         2166136261 0
         (length (LoadBalancer.buildRing
                    ["http://localhost:3001"; "http://localhost:3002";
                     "http://localhost:3003"]%string) - 1) = Some k ∧
       (k < length (LoadBalancer.buildRing
                      ["http://localhost:3001"; "http://localhost:3002";
                       "http://localhost:3003"]%string))%nat.
Proof.
  apply ring_search_logarithmic.
  - rewrite buildRing_length. simpl. lia.
  - rewrite buildRing_length. simpl. lia.
Defined.

Section Affinity.
Import LoadBalancer.

Lemma hash_reachable_fixed strategy servers weights lb0 lb :
  strategy = ip_hash ∨ strategy = consistent_hash →
  createLoadBalancer strategy servers weights = Some lb0 →
  reachable lb0 lb → lb = lb0.
Proof.
  intros Hs Hc Hr.
  assert (Hst : state lb0 = StIpHash ∨ ∃ ring, state lb0 = StConsistentHash ring).
  { revert Hc. unfold createLoadBalancer. case_bool_decide; [done |].
    intros [= <-]. destruct Hs as [-> | ->]; simpl; eauto. }
  induction Hr as [| lb req rnd t lb1 Hr IH H0 H1 Hp | lb target Hr IH];
    [done | |].
  - subst lb. revert Hp. unfold pickTarget.
    destruct Hst as [-> | [ring ->]].
    + destruct (LoadBalancer.servers lb0 !! _); simpl; [| done].
      by intros [= _ <-].
    + destruct (ringLookup _ _ _); simpl; [| done]. by intros [= _ <-].
  - subst lb. unfold release. by destruct Hst as [-> | [ring ->]].
Qed.

Lemma hashKey_header h i : h ≠ ""%string → hashKey (mkRequest (Some h) i) = h.
Proof.
  intros Hh. unfold hashKey, JS.or, JS.truthy. simpl.
  rewrite bool_decide_eq_false_2 by done. simpl.
  by rewrite bool_decide_eq_false_2.
Qed.

End Affinity.

(** X20.  Hash strategies are sticky.  With the ip-hash or the
    consistent-hash strategy, two requests that carry the same non-empty
    identity header are routed to the same backend, whatever their
    network addresses and whatever selections and releases happened in
    between. *)
Theorem hash_strategies_sticky (strategy : LoadBalancer.Strategy)
    (servers : list string) (weights : option (list Z))
    (lb0 lb lb' : LoadBalancer.LoadBalancer)
    (h : string) (i i' : option string) (rnd rnd' : Q) :
  strategy = LoadBalancer.ip_hash ∨ strategy = LoadBalancer.consistent_hash →
  LoadBalancer.createLoadBalancer strategy servers weights = Some lb0 →
  reachable lb0 lb → reachable lb0 lb' →
  h ≠ ""%string →
  fst <$> LoadBalancer.pickTarget lb (mkRequest (Some h) i) rnd
  = fst <$> LoadBalancer.pickTarget lb' (mkRequest (Some h) i') rnd'.
Proof.
  intros Hs Hc Hr Hr' Hh.
  rewrite (hash_reachable_fixed _ _ _ _ _ Hs Hc Hr).
  rewrite (hash_reachable_fixed _ _ _ _ _ Hs Hc Hr').
  revert Hc. unfold LoadBalancer.createLoadBalancer.
  case_bool_decide; [done |]. intros [= <-].
  unfold LoadBalancer.pickTarget.
  destruct Hs as [-> | ->]; simpl; by rewrite !hashKey_header.
Qed.

Lemma hash_strategies_sticky_witness :
  fst <$> LoadBalancer.pickTarget
            (LoadBalancer.mkLB ["A"; "B"; "C"]%string [1; 1; 1]
               LoadBalancer.StIpHash)
            (mkRequest (Some "karim"%string) (Some "10.0.0.7"%string)) 0%Q
  = fst <$> LoadBalancer.pickTarget
              (LoadBalancer.mkLB ["A"; "B"; "C"]%string [1; 1; 1]
                 LoadBalancer.StIpHash)
              (mkRequest (Some "karim"%string) None) (1 # 2)%Q.
Proof.
  apply (hash_strategies_sticky LoadBalancer.ip_hash ["A"; "B"; "C"]%string
           None
           (LoadBalancer.mkLB ["A"; "B"; "C"]%string [1; 1; 1]
              LoadBalancer.StIpHash)).
  - by left.
  - reflexivity.
  - apply reach_init.
  - apply reach_init.
  - discriminate.
Defined.

(** ** The gateway of src/index.ts *)

Section GatewayFacts.
Import Gateway.

Lemma gateway_run events : ∀ clients idx,
  let outs :=
    run (mkState clients
           (LoadBalancer.mkLB servers [1; 1; 1] (LoadBalancer.StRoundRobin idx)))
        events in
  Forall (λ o, o ≠ Failed) outs ∧
  ∀ j, (j < length (proxiedTargets outs))%nat →
    proxiedTargets outs !! j = servers !! ((idx + j) mod 3)%nat.
Proof.
  induction events as [| ev events IH]; intros clients idx; cbv zeta.
  - simpl. split; [constructor | intros; lia].
  - cbn [run]. destruct ev as [req now rnd | target].
    + cbn [handle Gateway.clients Gateway.lb].
      destruct (FixedWindow.rateLimiter clients req now) as [clients1 [| status error]].
      * unfold LoadBalancer.pickTarget.
        cbn [LoadBalancer.state LoadBalancer.servers LoadBalancer.ws].
        change (length servers) with 3%nat.
        destruct (lookup_lt_is_Some_2 servers (idx mod 3)) as [t Ht].
        { change (length servers) with 3%nat. apply Nat.mod_upper_bound. lia. }
        rewrite Ht. cbn [mbind option_bind].
        destruct (IH clients1 ((idx + 1) mod 3)%nat) as [Hok Hsel].
        set (rest := run _ events) in *.
        split; [constructor; [done | exact Hok] |].
        cbn [proxiedTargets length]. intros [| j] Hj.
        -- cbn [lookup list_lookup]. by rewrite Nat.add_0_r.
        -- cbn [lookup list_lookup]. rewrite Hsel by lia.
           rewrite Nat.Div0.add_mod_idemp_l. f_equal. f_equal. lia.
      * destruct (IH clients1 idx) as [Hok Hsel].
        split; [constructor; [done | exact Hok] |]. exact Hsel.
    + cbn [handle Gateway.clients Gateway.lb]. unfold LoadBalancer.release.
      cbn [LoadBalancer.state]. apply IH.
Qed.

End GatewayFacts.

(** X21.  The gateway of src/index.ts.  Whatever requests arrive and
    whenever their responses finish, a request the fixed-window
    middleware answers itself (400 or 429) never reaches the balancer,
    and the j-th request handed to the proxy (counting from 0) goes to
    the backend at index j mod 3 of the configured list; the handler
    always obtains a target. *)
Theorem gateway_round_robin (st0 : Gateway.State)
    (events : list Gateway.Event) :
  Gateway.start = Some st0 →
  Forall (λ o, o ≠ Gateway.Failed) (Gateway.run st0 events) ∧
  ∀ j, (j < length (Gateway.proxiedTargets (Gateway.run st0 events)))%nat →
    Gateway.proxiedTargets (Gateway.run st0 events) !! j
    = Gateway.servers !! (j mod 3)%nat.
Proof.
  intros Hst.
  assert (st0 = Gateway.mkState ∅
                  (LoadBalancer.mkLB Gateway.servers [1; 1; 1]
                     (LoadBalancer.StRoundRobin 0))) as ->.
  { revert Hst. unfold Gateway.start. simpl. by intros [= <-]. }
  apply (gateway_run events ∅ 0).
Qed.

Lemma gateway_round_robin_witness :
  Gateway.proxiedTargets
    (Gateway.run
       (Gateway.mkState ∅
          (LoadBalancer.mkLB Gateway.servers [1; 1; 1]
             (LoadBalancer.StRoundRobin 0)))
       [Gateway.Arrive (mkRequest (Some "a"%string) None) 0 0%Q;
        Gateway.Arrive (mkRequest None None) 1 0%Q;
        Gateway.Finish "http://localhost:3001";
        Gateway.Arrive (mkRequest (Some "b"%string) None) 2 0%Q])
    !! 1%nat
  = Some "http://localhost:3002"%string.
Proof.
  destruct (gateway_round_robin
              (Gateway.mkState ∅
                 (LoadBalancer.mkLB Gateway.servers [1; 1; 1]
                    (LoadBalancer.StRoundRobin 0)))
              [Gateway.Arrive (mkRequest (Some "a"%string) None) 0 0%Q;
               Gateway.Arrive (mkRequest None None) 1 0%Q;
               Gateway.Finish "http://localhost:3001";
               Gateway.Arrive (mkRequest (Some "b"%string) None) 2 0%Q])
    as [_ H]; [reflexivity |].
  rewrite (H 1%nat); [reflexivity | vm_compute; lia].
Defined.

Section ZeroWeights.
Import LoadBalancer.

Lemma zero_step servers req rnd :
  (0 < length servers)%nat →
  pickTarget
    (mkLB servers (replicate (length servers) 0)
       (StWeightedRoundRobin (replicate (length servers) 0))) req rnd
  = (λ t, (t, mkLB servers (replicate (length servers) 0)
                (StWeightedRoundRobin (replicate (length servers) 0))))
    <$> servers !! 0%nat.
Proof.
  intros Hn. set (n := length servers) in *.
  unfold pickTarget. cbn [state LoadBalancer.servers LoadBalancer.ws]. fold n.
  rewrite addWeights_spec by (by rewrite length_replicate).
  rewrite zip_with_replicate. change (0 + 0) with 0.
  assert (Hcell : ∀ i, cell (replicate n 0) i = 0).
  { intros i. unfold cell. destruct (replicate n 0 !! i) as [x |] eqn:E; [| done].
    by apply lookup_replicate_1 in E as [-> _]. }
  assert (Hbest : pickBest n (replicate n 0) = 0%nat).
  { apply pickBest_is; [done | |].
    - intros i _. rewrite !Hcell. lia.
    - intros i Hi. lia. }
  rewrite Hbest, Hcell.
  assert (Hsum : sumZ (replicate n 0) = 0).
  { clear. induction n as [| n IHn]; [done |]. unfold sumZ in *. simpl.
    by rewrite IHn. }
  rewrite Hsum. change (0 - 0) with 0. by rewrite insert_replicate.
Qed.

End ZeroWeights.

(** X22.  Weighted round robin with all weights 0.  A weight of 0 is
    used as it is ([ws[i] ?? 1] replaces a missing weight only), so when
    every weight is 0 the counters never move and every selection returns
    the first backend of the list. *)
Theorem wrr_zero_weights_first (servers : list string)
    (lb0 : LoadBalancer.LoadBalancer) (calls : list (Request * Q)) :
  LoadBalancer.createLoadBalancer LoadBalancer.weighted_round_robin servers
    (Some (replicate (length servers) 0)) = Some lb0 →
  selections lb0 calls = replicate (length calls) (default ""%string (head servers)) ∧
  stateAfter lb0 calls = lb0.
Proof.
  intros Hc. destruct (create_nonempty _ _ _ _ Hc) as [Hn _].
  assert (lb0 = LoadBalancer.mkLB servers (replicate (length servers) 0)
                  (LoadBalancer.StWeightedRoundRobin
                     (replicate (length servers) 0))) as ->.
  { revert Hc. unfold LoadBalancer.createLoadBalancer.
    case_bool_decide; [done |]. intros [= <-]. f_equal.
    unfold LoadBalancer.weightsOrOnes.
    by rewrite bool_decide_eq_true_2 by apply length_replicate. }
  destruct (lookup_lt_is_Some_2 servers 0 Hn) as [s0 H0].
  rewrite head_lookup, H0. cbn [default].
  split.
  - induction calls as [| [req rnd] calls IH]; [done |].
    cbn [selections]. rewrite zero_step, H0 by done.
    cbn [fmap option_fmap option_map length replicate]. by rewrite IH.
  - unfold stateAfter. induction calls as [| [req rnd] calls IH]; [done |].
    cbn [foldl]. rewrite zero_step, H0 by done.
    cbn [fmap option_fmap option_map]. exact IH.
Qed.

Lemma wrr_zero_weights_first_witness :
  selections
    (LoadBalancer.mkLB ["A"; "B"; "C"]%string [0; 0; 0]
       (LoadBalancer.StWeightedRoundRobin [0; 0; 0]))
    (replicate 4 (mkRequest None None, 0%Q))
  = ["A"; "A"; "A"; "A"]%string.
Proof.
  destruct (wrr_zero_weights_first ["A"; "B"; "C"]%string
              (LoadBalancer.mkLB ["A"; "B"; "C"]%string [0; 0; 0]
                 (LoadBalancer.StWeightedRoundRobin [0; 0; 0]))
              (replicate 4 (mkRequest None None, 0%Q)) eq_refl) as [H _].
  exact H.
Defined.
